(** * TrustedHTML: a shallow embedding of [src/types/trustedhtml.js]

    The development follows the layout of the source file: the outcome of a
    JavaScript call, strings and their regular-expression helpers, the
    [TrustedHTML] wrapper with [escape], the module-level configuration
    ([sanitizers_], [allowUnsafelyCreate_], [freezeConfiguration]) and the
    template-literal engine ([interpolate_], [processNode_]) over a DOM tree.

    Strings are sequences of bytes (the UTF-8 form of the JavaScript string).
    Every character the source inspects ([&], [<], [>], the quotes, NUL, [$]
    and the decimal digits) is an ASCII character, and no byte of a
    multi-byte UTF-8 sequence is ASCII, so the replacements below act on the
    bytes exactly as the source acts on the code units. *)

From Stdlib Require Import Ascii String NArith ZArith DecimalString DecimalPos
  DecimalN List Lia.
From stdpp Require Import base option gmap strings list.

Open Scope stdpp_scope.

(** ** Outcome of a call *)

(** The ways a call of the module is rejected.  In the source all of
    them are [TypeError]s; they differ in the place that throws:
    - [UnknownSanitizerError]: [sanitize], 'Unknown TrustedHTML sanitizer: ..';
    - [GateClosedError]: [unsafelyCreate], '.. unsafelyCreate is not allowed.';
    - [RegistryFrozenError]: the strict-mode write to a frozen object in
      [registerSanitizer] and in the [allowUnsafelyCreate] setter;
    - [UntrustedMarkupError]: [processNode_], 'TrustedHTML required when
      interpolating into innerHTML.';
    - [HostTypeError]: a [TypeError] raised by the host itself (calling a
      value that is not a function, reading a property of [null], a write
      to a read-only property).
    Three more come from outside the module:
    - [EvalError]: the host refuses to compile a string as code, as a
      content security policy without [unsafe-eval] makes it;
    - [ConversionError]: the conversion of a value to a string threw, a
      [TypeError] for a Symbol, or whatever the [toString] of an object
      throws;
    - [InvalidCharacterError]: the [DOMException] of [setAttribute] for a
      name it does not take. *)
Inductive error : Type :=
| UnknownSanitizerError (id : string)
| GateClosedError
| RegistryFrozenError
| UntrustedMarkupError
| HostTypeError
| EvalError
| ConversionError
| InvalidCharacterError.

(** A call returns, throws, or is still running when the fuel of the
    tree walk is spent. *)
Inductive outcome (A : Type) : Type :=
| Ok (a : A)
| Throw (e : error)
| OutOfFuel.

Arguments Ok {A} a.
Arguments Throw {A} e.
Arguments OutOfFuel {A}.

Definition bind {A B : Type} (k : A -> outcome B) (m : outcome A) : outcome B :=
  match m with
  | Ok a => k a
  | Throw e => Throw e
  | OutOfFuel => OutOfFuel
  end.

(** [x ← m; k] runs [m] and passes its value on; a throw ends the call. *)
#[global] Instance outcome_ret : MRet outcome := @Ok.
#[global] Instance outcome_bind : MBind outcome := @bind.

(** ** The wrapper *)

(** [this.inner_], typed [@private {string}] in the source. *)
Record TrustedHTML : Type := mkTrustedHTML { inner_ : string }.

(** [new TrustedHTML(inner)], the constructor called without template parts. *)
Definition new_TrustedHTML (inner : string) : TrustedHTML :=
  {| inner_ := inner |}.

(** [toString() { return '' + this.inner_; }] *)
Definition toString (t : TrustedHTML) : string := "" +:+ inner_ t.

(** ** [escape] *)

(** [s.replace(/c/g, r)] for a one-character pattern [c] and a replacement
    text [r] that holds no [$] pattern. *)
Fixpoint replace_char (c : ascii) (r : string) (s : string) : string :=
  match s with
  | EmptyString => EmptyString
  | String a s' =>
      if Ascii.eqb a c then r +:+ replace_char c r s'
      else String a (replace_char c r s')
  end.

Definition NUL : ascii := Ascii.zero.

(** The double quote (code 34), and a text between two of them. *)
Definition DQUOTE : ascii := "034"%char.

Definition quoted (s : string) : string :=
  String DQUOTE (s +:+ String DQUOTE "").

(** The chain of six [replace] calls of [escape], in the order of the
    source. *)
Definition escaped (html : string) : string :=
  replace_char NUL "&#0;"
    (replace_char "'" "&#39;"
      (replace_char DQUOTE "&quot;"
        (replace_char ">" "&gt;"
          (replace_char "<" "&lt;"
            (replace_char "&" "&amp;" html))))).

Definition escape (html : string) : TrustedHTML :=
  let escaped := escaped html in
  new_TrustedHTML escaped.

(** The same six replacements with the ampersand moved to the end; used
    only to show that the order of the source matters. *)
Definition escaped_ampersand_last (html : string) : string :=
  replace_char "&" "&amp;"
    (replace_char NUL "&#0;"
      (replace_char "'" "&#39;"
        (replace_char DQUOTE "&quot;"
          (replace_char ">" "&gt;"
            (replace_char "<" "&lt;" html))))).

(** The six characters [escape] replaces. *)
Definition is_special (c : ascii) : bool :=
  Ascii.eqb c "&" || Ascii.eqb c "<" || Ascii.eqb c ">" ||
  Ascii.eqb c DQUOTE || Ascii.eqb c "'" || Ascii.eqb c NUL.

(** The escape sequence of one character, as one pass would write it. *)
Definition escape_char (c : ascii) : string :=
  if Ascii.eqb c "&" then "&amp;"
  else if Ascii.eqb c "<" then "&lt;"
  else if Ascii.eqb c ">" then "&gt;"
  else if Ascii.eqb c DQUOTE then "&quot;"
  else if Ascii.eqb c "'" then "&#39;"
  else if Ascii.eqb c NUL then "&#0;"
  else String c "".

Fixpoint escape_each (s : string) : string :=
  match s with
  | EmptyString => EmptyString
  | String c s' => escape_char c +:+ escape_each s'
  end.

(** [Some rest] when [s] is [p] followed by [rest]. *)
Fixpoint after_prefix (p s : string) : option string :=
  match p, s with
  | EmptyString, _ => Some s
  | String a p', String b s' =>
      if Ascii.eqb a b then after_prefix p' s' else None
  | String _ _, EmptyString => None
  end.

(** The six escape sequences and the character each stands for. *)
Definition entities : list (string * ascii) :=
  [("&amp;", "&"%char); ("&lt;", "<"%char); ("&gt;", ">"%char);
   ("&quot;", DQUOTE); ("&#39;", "'"%char); ("&#0;", NUL)].

(** The escape sequence [s] starts with, together with the number of
    characters that follow its ampersand. *)
Fixpoint entity_at (es : list (string * ascii)) (s : string) : option (ascii * nat) :=
  match es with
  | [] => None
  | (e, c) :: es' =>
      match after_prefix e s with
      | Some _ => Some (c, String.length e - 1)
      | None => entity_at es' s
      end
  end.

(** Decoding of the escape sequences: every one of the six sequences is
    read back as its character, every other character is kept.  [skip]
    counts the characters of a sequence still to be dropped. *)
Fixpoint unescape_from (skip : nat) (s : string) : string :=
  match s with
  | EmptyString => EmptyString
  | String a s' =>
      match skip with
      | S k => unescape_from k s'
      | O =>
          match entity_at entities (String a s') with
          | Some (c, k) => String c (unescape_from k s')
          | None => String a (unescape_from 0 s')
          end
      end
  end.

Definition unescape (s : string) : string := unescape_from 0 s.

(** A text in which the six characters occur only inside escape
    sequences: a sequence of plain characters and escape sequences. *)
Inductive escaped_text : string -> Prop :=
| escaped_nil : escaped_text ""
| escaped_plain (c : ascii) (s : string) :
    is_special c = false -> escaped_text s -> escaped_text (String c s)
| escaped_entity (e : string) (c : ascii) (s : string) :
    In (e, c) entities -> escaped_text s -> escaped_text (e +:+ s).

(** [c] occurs in [s]. *)
Fixpoint occurs (c : ascii) (s : string) : bool :=
  match s with
  | EmptyString => false
  | String a s' => Ascii.eqb a c || occurs c s'
  end.

(** ** Values and the placeholder pattern *)

(** An integer that JavaScript holds exactly and prints by its digits,
    [Number.isSafeInteger]. *)
Record safe_integer : Type := mkInteger {
  integer : Z;
  is_safe : (Z.abs integer <=? 9007199254740991)%Z = true
}.

(** The values an expression of a template literal evaluates to
    ([Array<*>] in the source), as far as the engine tells them apart: it
    asks whether a value is an instance of the published [TrustedHTML]
    class and it converts a value to a string, nothing else.  The
    primitives with a fixed string form are listed; [VOther] is any other
    value that is not a [TrustedHTML] (an object, a number that is not a
    safe integer, a BigInt), given by the text its conversion returns, or
    by [None] when its conversion throws. *)
Inductive value : Type :=
| VUndefined
| VNull
| VBoolean (b : bool)
| VNumber (n : safe_integer)
| VString (s : string)
| VSymbol
| VOther (string_form : option string)
| VTrusted (t : TrustedHTML).

(** [String(v)], the conversion [replace] applies to what its callback
    returns and [setAttribute] to its argument.  A Symbol has no string
    form: the conversion throws. *)
Definition ToString (v : value) : outcome string :=
  match v with
  | VUndefined => Ok "undefined"
  | VNull => Ok "null"
  | VBoolean true => Ok "true"
  | VBoolean false => Ok "false"
  | VNumber n => Ok (NilZero.string_of_int (Z.to_int (integer n)))
  | VString s => Ok s
  | VSymbol => Throw ConversionError
  | VOther (Some s) => Ok s
  | VOther None => Throw ConversionError
  | VTrusted t => Ok (toString t)
  end.

(** The text of a value whose conversion returns. *)
Definition text_of (v : value) : string :=
  match ToString v with
  | Ok s => s
  | _ => ""
  end.

(** [value instanceof window['TrustedHTML']] *)
Definition instanceof_TrustedHTML (v : value) : bool :=
  match v with
  | VTrusted _ => true
  | _ => false
  end.

(** [\d] *)
Definition is_digit (c : ascii) : bool :=
  (48 <=? nat_of_ascii c)%nat && (nat_of_ascii c <=? 57)%nat.

(** The longest run of digits [s] starts with, and what follows it. *)
Fixpoint span_digits (s : string) : string * string :=
  match s with
  | EmptyString => ("", "")
  | String c s' =>
      if is_digit c
      then let '(ds, rest) := span_digits s' in (String c ds, rest)
      else ("", s)
  end.

(** A match of [/\$\$\$(\d+)\$\$\$/] at the very start of [s]: the text
    of the capture group and the rest of [s].  No digit is a dollar sign,
    so the greedy [\d+] never has to give a digit back. *)
Definition match_marker (s : string) : option (string * string) :=
  match after_prefix "$$$" s with
  | Some s1 =>
      let '(ds, s2) := span_digits s1 in
      match ds with
      | EmptyString => None
      | String _ _ =>
          match after_prefix "$$$" s2 with
          | Some rest => Some (ds, rest)
          | None => None
          end
      end
  | None => None
  end.

(** [Number(partId)] for a capture of decimal digits. *)
Definition Number_of_digits (ds : string) : N :=
  (fix go (acc : N) (s : string) : N :=
     match s with
     | EmptyString => acc
     | String c s' => go (acc * 10 + (N_of_ascii c - 48))%N s'
     end) 0%N ds.

(** What a global scan of the pattern sees: the matches, left to right
    and not overlapping, and the characters between them. *)
Inductive piece : Type :=
| Lit (c : ascii)
| Marker (partId : string).

Fixpoint pieces_from (skip : nat) (s : string) : list piece :=
  match s with
  | EmptyString => []
  | String a s' =>
      match skip with
      | S k => pieces_from k s'
      | O =>
          match match_marker (String a s') with
          | Some (ds, _) => Marker ds :: pieces_from (5 + String.length ds) s'
          | None => Lit a :: pieces_from 0 s'
          end
      end
  end.

Definition pieces (s : string) : list piece := pieces_from 0 s.

Definition is_marker (p : piece) : bool :=
  match p with
  | Marker _ => true
  | Lit _ => false
  end.

(** [s.match(INTERPOLATION_REGEXP_TEXT_)] used as a condition. *)
Definition has_marker (s : string) : bool := existsb is_marker (pieces s).

(** [s.match(INTERPOLATION_REGEXP_ATTR_)]: the capture group of the first
    match, [match[1]]. *)
Definition first_marker (s : string) : option string :=
  (fix go (ps : list piece) : option string :=
     match ps with
     | [] => None
     | Marker ds :: _ => Some ds
     | Lit _ :: ps' => go ps'
     end) (pieces s).

(** The indices of all the markers of [s]. *)
Definition marker_ids (s : string) : list N :=
  omap (fun p => match p with
                 | Marker ds => Some (Number_of_digits ds)
                 | Lit _ => None
                 end) (pieces s).

(** What a replacement writes for one piece, in front of the rest:
    a character between matches as it is, a match as the callback [f]
    gives it. *)
Definition render (f : string -> string) (p : piece) (acc : string) : string :=
  match p with
  | Lit c => String c acc
  | Marker ds => f ds +:+ acc
  end.

(** [s.replace(INTERPOLATION_REGEXP_TEXT_, (_, partId) => f(partId))] for
    a callback that returns a string. *)
Definition replace_markers (f : string -> string) (s : string) : string :=
  fold_right (render f) "" (pieces s).

(** The same call for a callback that may throw: the callback runs once
    per match, left to right, and the first throw ends the call. *)
Fixpoint replace_pieces_checked (f : string -> outcome string)
    (ps : list piece) : outcome string :=
  match ps with
  | [] => Ok ""
  | Lit c :: ps' =>
      acc ← replace_pieces_checked f ps'; Ok (String c acc)
  | Marker ds :: ps' =>
      r ← f ds;
      acc ← replace_pieces_checked f ps';
      Ok (r +:+ acc)
  end.

Definition replace_markers_checked (f : string -> outcome string)
    (s : string) : outcome string :=
  replace_pieces_checked f (pieces s).

(** ** Module configuration *)

(** [DEFAULT_SANITIZER_] *)
Definition DEFAULT_SANITIZER_ : string := "default".

(** A function as the registry sees it.  [identity] tells one function
    object from another; [call_] is what a call with a string returns
    (typed [function(string):string] in the source) and
    [call_without_argument] what a call with no argument returns, as text,
    or that it throws.
    The last two fields matter once the function has been made the
    prototype of the registry: [member_ k] is the property found under [k]
    in the function or in [Function.prototype] when it is truthy, given by
    what a call of it with the registry as receiver and a string as
    argument returns, as text, or throws; [read_only k] tells that an
    assignment under [k] through the function is refused (a property that
    is not writable, such as [length] and [name], or an accessor whose
    setter throws). *)
Record function_object : Type := mkFunction {
  identity : N;
  call_ : string -> string;
  call_without_argument : outcome string;
  member_ : string -> option (string -> outcome string);
  read_only : string -> bool
}.

(** The two module-level objects.  [sanitizers_] holds the own properties
    of the object literal the module creates and [sanitizers_prototype]
    its prototype: [None] for the prototype every object literal has,
    [Some f] once the assignment [sanitizers_['__proto__'] = f] has handed
    [f] to the [__proto__] setter.  [allowed] is the one property of
    [allowUnsafelyCreate_]; the two flags record [Object.freeze]. *)
Record config : Type := mkConfig {
  sanitizers_ : gmap string function_object;
  sanitizers_prototype : option function_object;
  sanitizers_frozen : bool;
  allowed : bool;
  allowUnsafelyCreate_frozen : bool
}.

(** The state the module is loaded with: [sanitizers_ = {}] and
    [allowUnsafelyCreate_ = {'allowed': true}], nothing frozen. *)
Definition initial_config : config :=
  {| sanitizers_ := ∅;
     sanitizers_prototype := None;
     sanitizers_frozen := false;
     allowed := true;
     allowUnsafelyCreate_frozen := false |}.

(** What [sanitizers_[id]] evaluates to when it is truthy: a function
    object (an own property, or the prototype itself, which the
    [__proto__] getter returns), or a member found along the prototype
    chain. *)
Inductive property : Type :=
| OwnProperty (sanitizer : function_object)
| InheritedProperty
    (member : gmap string function_object -> string -> outcome string).

Section Configuration.

(** [sanitizers_] is an ordinary object, so a key that is not one of its
    own properties is looked up along its prototype chain, which ends in
    the prototype the host gives to object literals.  [Object_prototype k]
    is the member found there under [k], if any; applied to the own
    properties of the registry (the receiver) and to the argument it gives
    the text [toString] shows for a wrapper built around the value the
    member returns, or the error it throws. *)
Variable Object_prototype :
  string -> option (gmap string function_object -> string -> outcome string).

(** [sanitizers_[id]] *)
Definition get_sanitizer (c : config) (id : string) : option property :=
  match sanitizers_ c !! id with
  | Some f => Some (OwnProperty f)
  | None =>
      match sanitizers_prototype c with
      | None => InheritedProperty <$> Object_prototype id
      | Some p =>
          if String.eqb id "__proto__" then Some (OwnProperty p)
          else
            match member_ p id with
            | Some m => Some (InheritedProperty (fun _ => m))
            | None => InheritedProperty <$> Object_prototype id
            end
      end
  end.

Definition sanitize (html : string) (optSanitizerId : option string)
    (c : config) : outcome TrustedHTML :=
  let optSanitizerId := default DEFAULT_SANITIZER_ optSanitizerId in
  match get_sanitizer c optSanitizerId with
  | None => Throw (UnknownSanitizerError optSanitizerId)
  | Some (OwnProperty f) => Ok (new_TrustedHTML (call_ f html))
  | Some (InheritedProperty m) =>
      r ← m (sanitizers_ c) html; Ok (new_TrustedHTML r)
  end.

End Configuration.

(** The function is the object the registry has as its prototype. *)
Definition is_prototype (c : config) (f : function_object) : bool :=
  match sanitizers_prototype c with
  | Some p => N.eqb (identity p) (identity f)
  | None => false
  end.

(** An assignment under [id] that the prototype chain refuses: [id] is not
    an own property and the prototype holds it read-only. *)
Definition refused_by_prototype (c : config) (id : string) : bool :=
  match sanitizers_ c !! id, sanitizers_prototype c with
  | None, Some p => read_only p id
  | _, _ => false
  end.

(** [sanitizers_[optSanitizerId] = sanitizer] runs in strict code (the file
    is a module and the method is part of a class body), so a write the
    object refuses throws.
    - Under the key [__proto__] the assignment calls the setter of
      [Object.prototype]: it makes the function the prototype of the
      registry and adds no property.  On a frozen registry the setter
      throws, unless the function is the prototype already.
    - Under any other key the assignment writes an own property; it throws
      on a frozen registry, and when the key is not yet an own property
      and the prototype holds it read-only. *)
Definition registerSanitizer (sanitizer : function_object)
    (optSanitizerId : option string) (c : config) : outcome unit * config :=
  let optSanitizerId := default DEFAULT_SANITIZER_ optSanitizerId in
  if String.eqb optSanitizerId "__proto__" then
    if sanitizers_frozen c then
      if is_prototype c sanitizer then (Ok (), c)
      else (Throw RegistryFrozenError, c)
    else (Ok (),
          {| sanitizers_ := sanitizers_ c;
             sanitizers_prototype := Some sanitizer;
             sanitizers_frozen := sanitizers_frozen c;
             allowed := allowed c;
             allowUnsafelyCreate_frozen := allowUnsafelyCreate_frozen c |})
  else if sanitizers_frozen c then (Throw RegistryFrozenError, c)
  else if refused_by_prototype c optSanitizerId then (Throw HostTypeError, c)
  else (Ok (),
        {| sanitizers_ := <[optSanitizerId := sanitizer]> (sanitizers_ c);
           sanitizers_prototype := sanitizers_prototype c;
           sanitizers_frozen := sanitizers_frozen c;
           allowed := allowed c;
           allowUnsafelyCreate_frozen := allowUnsafelyCreate_frozen c |}).

Definition unsafelyCreate (html : string) (c : config) : outcome TrustedHTML :=
  if negb (allowed c) then Throw GateClosedError
  else Ok (new_TrustedHTML html).

(** [static set allowUnsafelyCreate(value)] *)
Definition set_allowUnsafelyCreate (value : bool) (c : config)
    : outcome unit * config :=
  if allowUnsafelyCreate_frozen c then (Throw RegistryFrozenError, c)
  else (Ok (),
        {| sanitizers_ := sanitizers_ c;
           sanitizers_prototype := sanitizers_prototype c;
           sanitizers_frozen := sanitizers_frozen c;
           allowed := negb (negb value);
           allowUnsafelyCreate_frozen := allowUnsafelyCreate_frozen c |}).

(** [static get allowUnsafelyCreate()] *)
Definition get_allowUnsafelyCreate (c : config) : bool :=
  negb (negb (allowed c)).

Definition freezeConfiguration (c : config) : config :=
  {| sanitizers_ := sanitizers_ c;
     sanitizers_prototype := sanitizers_prototype c;
     sanitizers_frozen := true;
     allowed := allowed c;
     allowUnsafelyCreate_frozen := true |}.

(** Both objects are frozen. *)
Definition frozen (c : config) : Prop :=
  sanitizers_frozen c = true /\ allowUnsafelyCreate_frozen c = true.

(** The calls that write to the configuration, and a program that makes
    some of them one after the other; a throw is left to the caller and
    does not stop the program. *)
Inductive call : Type :=
| Call_registerSanitizer (sanitizer : function_object) (optSanitizerId : option string)
| Call_set_allowUnsafelyCreate (value : bool)
| Call_freezeConfiguration.

Definition perform (c : config) (k : call) : outcome unit * config :=
  match k with
  | Call_registerSanitizer f id => registerSanitizer f id c
  | Call_set_allowUnsafelyCreate v => set_allowUnsafelyCreate v c
  | Call_freezeConfiguration => (Ok (), freezeConfiguration c)
  end.

Definition perform_all (c : config) (ks : list call) : config :=
  fold_left (fun c k => snd (perform c k)) ks c.

(** What ['' + sanitizers_] gives: [valueOf] returns the object itself, so
    the conversion goes on to [toString], which is the sanitizer
    registered under that key, called without an argument, or the one of
    [Object.prototype]. *)
Definition registry_text (own : gmap string function_object) : outcome string :=
  match own !! "toString" with
  | Some f => call_without_argument f
  | None => Ok "[object Object]"
  end.

(** The string-keyed members of [Object.prototype], with what a call
    [sanitizers_[k](html)] of each returns, shown as [toString] shows it
    right after the call once it is wrapped:
    - [constructor] is [Object]; [Object(html)] is a String object around
      [html], and ['' + ] of it is [html];
    - [toString] returns '[object Object]';
    - [toLocaleString] calls the [toString] of the registry, and
      [valueOf] returns the registry, whose text is the same;
    - [hasOwnProperty] and [propertyIsEnumerable] tell whether [html] is
      one of the registered keys;
    - [isPrototypeOf(html)] is [false] for a string;
    - [__proto__] reads as [Object.prototype] itself, which is not a
      function: the call throws;
    - [__defineGetter__] and [__defineSetter__] throw, for the second
      argument they are called without is not a function;
    - [__lookupGetter__] and [__lookupSetter__] return [undefined] for a
      key that is not an accessor, and every key but [__proto__] is
      none; for [__proto__] they return a built-in function, shown here
      as V8 prints it. *)
Definition Object_prototype_members (k : string)
    : option (gmap string function_object -> string -> outcome string) :=
  if String.eqb k "constructor" then Some (fun _ html => Ok html)
  else if String.eqb k "toString" then Some (fun _ _ => Ok "[object Object]")
  else if String.eqb k "toLocaleString" then Some (fun own _ => registry_text own)
  else if String.eqb k "valueOf" then Some (fun own _ => registry_text own)
  else if String.eqb k "hasOwnProperty" then
    Some (fun own html => ToString (VBoolean (bool_decide (is_Some (own !! html)))))
  else if String.eqb k "propertyIsEnumerable" then
    Some (fun own html => ToString (VBoolean (bool_decide (is_Some (own !! html)))))
  else if String.eqb k "isPrototypeOf" then Some (fun _ _ => Ok "false")
  else if String.eqb k "__proto__" then Some (fun _ _ => Throw HostTypeError)
  else if String.eqb k "__defineGetter__" then Some (fun _ _ => Throw HostTypeError)
  else if String.eqb k "__defineSetter__" then Some (fun _ _ => Throw HostTypeError)
  else if String.eqb k "__lookupGetter__" then
    Some (fun _ html =>
            Ok (if String.eqb html "__proto__"
                then "function get __proto__() { [native code] }"
                else "undefined"))
  else if String.eqb k "__lookupSetter__" then
    Some (fun _ html =>
            Ok (if String.eqb html "__proto__"
                then "function set __proto__() { [native code] }"
                else "undefined"))
  else None.

(** An arrow function of one parameter that is held in a constant, as
    [const f = (s) => ...], on a page whose content security policy
    forbids [eval]: object number [i], returning [f s] for a string [s]
    and [u] when it is called without an argument.  What the registry
    finds through it once it is the prototype:
    - [length] is 1 and [name] a name, neither a function, so the call
      throws; both are read-only;
    - [apply], [bind], [call] and [toString] of [Function.prototype]
      throw for a receiver that is not a function;
    - [caller] and [arguments] are accessors that throw, read or
      written;
    - [constructor] is [Function], which the policy keeps from compiling
      its argument. *)
Definition arrow_function (i : N) (f : string -> string) (u : outcome string)
    : function_object :=
  {| identity := i;
     call_ := f;
     call_without_argument := u;
     member_ := fun k =>
       if bool_decide (k ∈ ["length"; "name"; "apply"; "bind"; "call";
                            "toString"; "caller"; "arguments"])
       then Some (fun _ => Throw HostTypeError)
       else if String.eqb k "constructor" then Some (fun _ => Throw EvalError)
       else None;
     read_only := fun k =>
       bool_decide (k ∈ ["length"; "name"; "caller"; "arguments"]) |}.

(** ** The document tree *)

(** A node of the parsed document: an element with its attributes (name
    and value, in document order) and children, a text node, or a comment
    (the one other kind of node below the root of a parsed HTML document). *)
#[local] Unset Elimination Schemes.
Inductive node : Type :=
| Element (tagName : string) (attributes : list (string * string))
          (childNodes : list node)
| Text (nodeValue : string)
| Comment (data : string).
#[local] Set Elimination Schemes.

(** The attributes with the value [value] under [name]: the first
    attribute of that name gets the value; without one the attribute is
    appended. *)
Fixpoint attributes_with (name value : string) (attrs : list (string * string))
    : list (string * string) :=
  match attrs with
  | [] => [(name, value)]
  | (n, v) :: attrs' =>
      if String.eqb n name then (n, value) :: attrs'
      else (n, v) :: attributes_with name value attrs'
  end.

(** [node.setAttribute(name, value)] for an element of an HTML document and
    a value that is a string already: the call throws an
    [InvalidCharacterError] for a name the host does not take
    ([valid_attribute_name] tells which names it takes), and sets the
    value otherwise. *)
Definition setAttribute (valid_attribute_name : string -> bool)
    (name value : string) (attrs : list (string * string))
    : outcome (list (string * string)) :=
  if valid_attribute_name name then Ok (attributes_with name value attrs)
  else Throw InvalidCharacterError.

(** [node.getAttribute(name)] *)
Fixpoint getAttribute (name : string) (attrs : list (string * string))
    : option string :=
  match attrs with
  | [] => None
  | (n, v) :: attrs' =>
      if String.eqb n name then Some v else getAttribute name attrs'
  end.

Definition isLeafElementNode_ (n : node) : bool :=
  match n with
  | Element _ _ [Text _] => true
  | _ => false
  end.

(** Depth of a tree: the fuel its walk needs. *)
Fixpoint depth (n : node) : nat :=
  match n with
  | Element _ _ kids => S (fold_right (fun k d => Nat.max (depth k) d) 0 kids)
  | _ => 1
  end.

(** ** The template engine *)

(** [i < a.length], which is what [a.hasOwnProperty(i)] tells for the
    array of a rest parameter. *)
Fixpoint hasOwnProperty {A : Type} (a : list A) (i : N) : bool :=
  match a with
  | [] => false
  | _ :: a' => if N.eqb i 0 then true else hasOwnProperty a' (N.pred i)
  end.

(** [a[i]], [undefined] past the end. *)
Fixpoint element_at (a : list value) (i : N) : value :=
  match a with
  | [] => VUndefined
  | v :: a' => if N.eqb i 0 then v else element_at a' (N.pred i)
  end.

(** ['$$$' + i + '$$$'] *)
Definition marker_text (i : N) : string :=
  "$$$" +:+ NilZero.string_of_uint (N.to_uint i) +:+ "$$$".

(** The loop of [interpolate_] from index [i] on: every part, followed by
    a marker when the results have an entry at its index. *)
Fixpoint join_from (i : N) (templateParts_ : list string)
    (templateExpressionResults_ : list value) : string :=
  match templateParts_ with
  | [] => ""
  | part :: parts =>
      part +:+
      (if hasOwnProperty templateExpressionResults_ i then marker_text i else "") +:+
      join_from (N.succ i) parts templateExpressionResults_
  end.

(** [doc.body]: the first child of the root element that is a [body] or a
    [frameset] element. *)
Definition body_of (root : node) : option node :=
  match root with
  | Element _ _ kids =>
      List.find (fun k => match k with
                          | Element t _ _ => String.eqb t "body" || String.eqb t "frameset"
                          | _ => false
                          end) kids
  | _ => None
  end.

Section Engine.

(** The host: [new DOMParser().parseFromString(s, 'text/html')], given by
    the root element of the document it returns; the [innerHTML] getter
    of an element; the [innerHTML] setter, given by the children the
    markup is parsed into inside the element; and the names
    [setAttribute] takes (a parser does produce names it does not
    take). *)
Variable parseFromString : string -> node.
Variable innerHTML : node -> string.
Variable parseFragment : node -> string -> list node.
Variable valid_attribute_name : string -> bool.

Variable templateExpressionResults_ : list value.

(** [this.templateExpressionResults_[Number(partId)]] *)
Definition result_of (partId : string) : value :=
  element_at templateExpressionResults_ (Number_of_digits partId).

(** [replaceWithExpressionResult_], with the conversion [replace] and
    [setAttribute] apply to what it returns. *)
Definition replaceWithExpressionResult_ (partId : string) : outcome string :=
  ToString (result_of partId).

(** The callback of the leaf-element branch, with the conversion of what
    it returns. *)
Definition trusted_result (partId : string) : outcome string :=
  let value := result_of partId in
  if negb (instanceof_TrustedHTML value) then Throw UntrustedMarkupError
  else ToString value.

(** One turn of the [forEach] over the copy of [node.attributes]: the
    attribute at position [i] of the copy is the same object as the one
    at position [i] of the element, and [setAttribute] neither moves nor
    removes an attribute.  The call converts its second argument first
    and looks at the name then. *)
Definition process_attribute (attrs : list (string * string)) (i : nat)
    : outcome (list (string * string)) :=
  match attrs !! i with
  | Some (name, v) =>
      match first_marker v with
      | Some partId =>
          value ← replaceWithExpressionResult_ partId;
          setAttribute valid_attribute_name name value attrs
      | None => Ok attrs
      end
  | None => Ok attrs
  end.

(** The turns for the positions [ixs], in order; the first throw ends the
    loop. *)
Fixpoint process_attributes_at (ixs : list nat) (attrs : list (string * string))
    : outcome (list (string * string)) :=
  match ixs with
  | [] => Ok attrs
  | i :: ixs' =>
      attrs' ← process_attribute attrs i; process_attributes_at ixs' attrs'
  end.

Definition process_attributes (attrs : list (string * string))
    : outcome (list (string * string)) :=
  process_attributes_at (seq 0 (length attrs)) attrs.

(** What the loop leaves in the place of one attribute when it returns
    and no other attribute has its name. *)
Definition attribute_after (a : string * string) : string * string :=
  match first_marker (snd a) with
  | Some partId => (fst a, text_of (result_of partId))
  | None => a
  end.

(** The error the turn for one attribute ends with, if it throws: the
    error of the conversion, or the one of [setAttribute] for a name it
    does not take. *)
Definition attribute_error (a : string * string) : option error :=
  match first_marker (snd a) with
  | Some partId =>
      match replaceWithExpressionResult_ partId with
      | Throw e => Some e
      | _ =>
          if valid_attribute_name (fst a) then None
          else Some InvalidCharacterError
      end
  | None => None
  end.

(** The first such error among the attributes, in their order. *)
Fixpoint attributes_error (attrs : list (string * string)) : option error :=
  match attrs with
  | [] => None
  | a :: attrs' =>
      match attribute_error a with
      | Some e => Some e
      | None => attributes_error attrs'
      end
  end.

(** The three steps of [processNode_], one per [if] of the source. *)

(** [if (node instanceof Element)]: the attributes. *)
Definition process_element (n : node) : outcome node :=
  match n with
  | Element t attrs kids =>
      attrs' ← process_attributes attrs; Ok (Element t attrs' kids)
  | _ => Ok n
  end.

(** [if (this.isLeafElementNode_(node))]: the inner markup of a leaf
    element.  The wrapper built around the replaced markup goes through
    [toString] when it is assigned to [innerHTML]. *)
Definition process_markup (n : node) : outcome node :=
  if isLeafElementNode_ n then
    if has_marker (innerHTML n) then
      html ← replace_markers_checked trusted_result (innerHTML n);
      match n with
      | Element t attrs _ =>
          Ok (Element t attrs (parseFragment n (toString (new_TrustedHTML html))))
      | _ => Ok n
      end
    else Ok n
  else Ok n.

(** [if (node.nodeType == Node.TEXT_NODE)]: the text of a text node. *)
Definition process_text (n : node) : outcome node :=
  match n with
  | Text v =>
      if has_marker v
      then v' ← replace_markers_checked replaceWithExpressionResult_ v; Ok (Text v')
      else Ok n
  | _ => Ok n
  end.

Definition processNode_ (n : node) : outcome node :=
  n1 ← process_element n; n2 ← process_markup n1; process_text n2.

(** The loop over the node iterator.  A call of [processNode_] changes
    the attributes, the children or the text of the node it is given and
    nothing else, so the iterator, which looks for the next node only
    when it is asked, goes on with the children the node has after the
    call.  The walk below does that: a node first, then the children it
    is left with, in order.  [fuel] bounds the depth the walk reaches. *)
Fixpoint walk (fuel : nat) (n : node) : outcome node :=
  match fuel with
  | O => OutOfFuel
  | S fuel' =>
      n' ← processNode_ n;
      match n' with
      | Element t attrs kids =>
          kids' ← mapM (walk fuel') kids; Ok (Element t attrs kids')
      | _ => Ok n'
      end
  end.

Definition interpolate_ (fuel : nat) (templateParts_ : list string)
    : outcome string :=
  let replaced := join_from 0 templateParts_ templateExpressionResults_ in
  let doc := parseFromString ("<body>" +:+ replaced +:+ "</body>") in
  doc' ← walk fuel doc;
  match body_of doc' with
  | Some body => Ok (innerHTML body)
  | None => Throw HostTypeError
  end.

(** [new TrustedHTML('', strings, expressions)], the constructor called
    with template parts: an array is truthy, so it always interpolates. *)
Definition new_TrustedHTML_template (fuel : nat) (strings : list string)
    : outcome TrustedHTML :=
  inner ← interpolate_ fuel strings; Ok (new_TrustedHTML inner).

(** Nothing in the tree calls for a substitution: no attribute value and
    no text node holds a marker, and neither does the inner markup of a
    leaf element. *)
Fixpoint marker_free (n : node) : bool :=
  match n with
  | Element t attrs kids =>
      forallb (fun a => negb (has_marker (snd a))) attrs &&
      negb (isLeafElementNode_ n && has_marker (innerHTML n)) &&
      forallb marker_free kids
  | Text v => negb (has_marker v)
  | Comment _ => true
  end.

(** Somewhere in the tree there is a leaf element with a marker in its
    inner markup whose result is not a [TrustedHTML]. *)
Fixpoint untrusted_leaf (n : node) : bool :=
  match n with
  | Element t attrs kids =>
      (isLeafElementNode_ n &&
       existsb (fun i => negb (instanceof_TrustedHTML
                                 (element_at templateExpressionResults_ i)))
               (marker_ids (innerHTML n)))
      || existsb untrusted_leaf kids
  | _ => false
  end.

End Engine.

(** The plain concatenation of the segments. *)
Definition concat_strings (l : list string) : string :=
  fold_right String.append "" l.

Definition fromTemplateLiteral (parseFromString : string -> node)
    (innerHTML : node -> string) (parseFragment : node -> string -> list node)
    (valid_attribute_name : string -> bool)
    (fuel : nat) (strings : list string) (expressions : list value)
    : outcome TrustedHTML :=
  new_TrustedHTML_template parseFromString innerHTML parseFragment
    valid_attribute_name expressions fuel strings.

(** ** The earlier revision of the module *)

(** The repository also holds the [goog.provide] revision of the file.  It
    has the same [escape], [toString], leaf-element and text-node code and
    differs in three places: [unsafelyCreate] has no gate, an attribute
    value has all its markers replaced in place, and the joined markup is
    parsed as it is. *)
Module Legacy.

Definition unsafelyCreate (html : string) : TrustedHTML :=
  new_TrustedHTML html.

Section Engine.

Variable parseFromString : string -> node.
Variable innerHTML : node -> string.
Variable parseFragment : node -> string -> list node.
Variable templateExpressionResults_ : list value.

(** [attr.value = attr.value.replace(INTERPOLATION_REGEXP_LAX_, ...)]:
    the value is assigned, so no name is looked at; the conversion of
    what the callback returns can throw as it can elsewhere. *)
Definition process_attribute (a : string * string) : outcome (string * string) :=
  if has_marker (snd a)
  then
    v ← replace_markers_checked
          (replaceWithExpressionResult_ templateExpressionResults_) (snd a);
    Ok (fst a, v)
  else Ok a.

Definition process_attributes (attrs : list (string * string))
    : outcome (list (string * string)) :=
  mapM process_attribute attrs.

Definition process_element (n : node) : outcome node :=
  match n with
  | Element t attrs kids =>
      attrs' ← process_attributes attrs; Ok (Element t attrs' kids)
  | _ => Ok n
  end.

Definition processNode_ (n : node) : outcome node :=
  n1 ← process_element n;
  n2 ← process_markup innerHTML parseFragment templateExpressionResults_ n1;
  process_text templateExpressionResults_ n2.

Fixpoint walk (fuel : nat) (n : node) : outcome node :=
  match fuel with
  | O => OutOfFuel
  | S fuel' =>
      n' ← processNode_ n;
      match n' with
      | Element t attrs kids =>
          kids' ← mapM (walk fuel') kids; Ok (Element t attrs kids')
      | _ => Ok n'
      end
  end.

Definition interpolate_ (fuel : nat) (templateParts_ : list string)
    : outcome string :=
  let replaced := join_from 0 templateParts_ templateExpressionResults_ in
  let doc := parseFromString replaced in
  doc' ← walk fuel doc;
  match body_of doc' with
  | Some body => Ok (innerHTML body)
  | None => Throw HostTypeError
  end.

Definition new_TrustedHTML_template (fuel : nat) (strings : list string)
    : outcome TrustedHTML :=
  inner ← interpolate_ fuel strings; Ok (new_TrustedHTML inner).

End Engine.

Definition fromTemplateLiteral (parseFromString : string -> node)
    (innerHTML : node -> string) (parseFragment : node -> string -> list node)
    (fuel : nat) (strings : list string) (expressions : list value)
    : outcome TrustedHTML :=
  new_TrustedHTML_template parseFromString innerHTML parseFragment expressions
    fuel strings.

End Legacy.

(** ** A host for the examples *)

(** A small HTML parser and serializer to run the engine on.  It follows
    the tokenizer and the in-body tree construction of the HTML standard
    on the markup the examples use: ASCII text without NUL and carriage
    return; start tags with attributes (double-quoted, single-quoted,
    unquoted or without a value), end tags and comments; the character
    references [&amp;] [&lt;] [&gt;] [&quot;] [&apos;] and the decimal
    references of the ASCII characters, written with their semicolon;
    elements closed by their own end tag or by the end of the input.
    Elements the standard parses by rules of their own (raw text, tables,
    lists, paragraphs that end at the next block, foreign content) are
    outside of it. *)
Module Host.

Definition is_space (c : ascii) : bool :=
  let n := nat_of_ascii c in
  Nat.eqb n 9 || Nat.eqb n 10 || Nat.eqb n 12 || Nat.eqb n 13 || Nat.eqb n 32.

Definition is_upper (c : ascii) : bool :=
  (65 <=? nat_of_ascii c)%nat && (nat_of_ascii c <=? 90)%nat.

Definition is_alpha (c : ascii) : bool :=
  is_upper c || ((97 <=? nat_of_ascii c)%nat && (nat_of_ascii c <=? 122)%nat).

Definition lower (c : ascii) : ascii :=
  if is_upper c then ascii_of_nat (nat_of_ascii c + 32) else c.

(** *** Character references *)

Definition named_references : list (string * ascii) :=
  [("&amp;", "&"%char); ("&lt;", "<"%char); ("&gt;", ">"%char);
   ("&quot;", DQUOTE); ("&apos;", "'"%char)].

(** U+FFFD, the character a reference to NUL stands for. *)
Definition replacement_character : string :=
  String (ascii_of_nat 239) (String (ascii_of_nat 191) (String (ascii_of_nat 189) "")).

(** A decimal reference at the start of [s]: its text and the number of
    characters after the ampersand. *)
Definition numeric_reference (s : string) : option (string * nat) :=
  match after_prefix "&#" s with
  | Some s1 =>
      let '(ds, s2) := span_digits s1 in
      match ds, after_prefix ";" s2 with
      | String _ _, Some _ =>
          let n := Number_of_digits ds in
          if N.eqb n 0 then Some (replacement_character, 2 + String.length ds)
          else if N.ltb n 128 then Some (String (ascii_of_N n) "", 2 + String.length ds)
          else None
      | _, _ => None
      end
  | None => None
  end.

Definition reference_at (s : string) : option (string * nat) :=
  match entity_at named_references s with
  | Some (c, k) => Some (String c "", k)
  | None => numeric_reference s
  end.

Fixpoint decode_from (skip : nat) (s : string) : string :=
  match s with
  | EmptyString => EmptyString
  | String a s' =>
      match skip with
      | S k => decode_from k s'
      | O =>
          match reference_at (String a s') with
          | Some (r, k) => r +:+ decode_from k s'
          | None => String a (decode_from 0 s')
          end
      end
  end.

Definition decode_references (s : string) : string := decode_from 0 s.

(** *** Tokens *)

Inductive token : Type :=
| TkStart (name : string) (attrs : list (string * string))
| TkEnd (name : string)
| TkText (text : string)
| TkComment (data : string).

(** A tag being read: reversed name, attributes read so far (last first). *)
Record tag : Type := mkTag {
  closing : bool;
  tname : string;
  tattrs : list (string * string)
}.

Inductive quote : Type := DoubleQuoted | SingleQuoted | Unquoted.

(** The states of the tokenizer.  Texts under construction are kept
    reversed. *)
Inductive tstate : Type :=
| SData (text : string)
| STagOpen (text : string)
| SEndTagOpen (text : string)
| STagName (closing : bool) (name : string)
| SBeforeAttrName (t : tag)
| SAttrName (t : tag) (name : string)
| SAfterAttrName (t : tag) (name : string)
| SBeforeAttrValue (t : tag) (name : string)
| SAttrValue (q : quote) (t : tag) (name value : string)
| SAfterAttrValue (t : tag)
| SSelfClosing (t : tag)
| SMarkupOpen
| SMarkupDash
| SBogusComment (data : string)
| SCommentStart
| SCommentStartDash
| SComment (data : string)
| SCommentEndDash (data : string)
| SCommentEnd (data : string)
| SCommentEndBang (data : string).

Definition flush (text : string) : list token :=
  match text with
  | EmptyString => []
  | String _ _ => [TkText (decode_references (String.rev text))]
  end.

(** A finished attribute is dropped when the tag already has one of its
    name. *)
Definition finish_attr (t : tag) (name value : string) : tag :=
  let n := String.rev name in
  match getAttribute n (tattrs t) with
  | Some _ => t
  | None =>
      {| closing := closing t; tname := tname t;
         tattrs := (n, decode_references (String.rev value)) :: tattrs t |}
  end.

Definition emit (t : tag) : tstate * list token :=
  (SData "",
   [if closing t then TkEnd (String.rev (tname t))
    else TkStart (String.rev (tname t)) (rev (tattrs t))]).

Definition begin_attr (t : tag) (c : ascii) : tstate * list token :=
  (SAttrName t (String (lower c) ""), []).

(** A character read inside a comment. *)
Definition in_comment (data : string) (c : ascii) : tstate * list token :=
  if Ascii.eqb c "-" then (SCommentEndDash data, [])
  else (SComment (String c data), []).

Definition emit_comment (data : string) : tstate * list token :=
  (SData "", [TkComment (String.rev data)]).

Definition step (st : tstate) (c : ascii) : tstate * list token :=
  match st with
  | SData text =>
      if Ascii.eqb c "<" then (STagOpen text, [])
      else (SData (String c text), [])
  | STagOpen text =>
      if Ascii.eqb c "/" then (SEndTagOpen text, [])
      else if Ascii.eqb c "!" then (SMarkupOpen, flush text)
      else if is_alpha c then (STagName false (String (lower c) ""), flush text)
      else if Ascii.eqb c "?" then (SBogusComment "?", flush text)
      else if Ascii.eqb c "<" then (STagOpen (String "<" text), [])
      else (SData (String c (String "<" text)), [])
  | SEndTagOpen text =>
      if is_alpha c then (STagName true (String (lower c) ""), flush text)
      else if Ascii.eqb c ">" then (SData text, [])
      else (SBogusComment (String c ""), flush text)
  | STagName cl name =>
      let t := {| closing := cl; tname := name; tattrs := [] |} in
      if is_space c then (SBeforeAttrName t, [])
      else if Ascii.eqb c "/" then (SSelfClosing t, [])
      else if Ascii.eqb c ">" then emit t
      else (STagName cl (String (lower c) name), [])
  | SBeforeAttrName t =>
      if is_space c then (SBeforeAttrName t, [])
      else if Ascii.eqb c "/" then (SSelfClosing t, [])
      else if Ascii.eqb c ">" then emit t
      else begin_attr t c
  | SAttrName t name =>
      if is_space c then (SAfterAttrName t name, [])
      else if Ascii.eqb c "/" then (SSelfClosing (finish_attr t name ""), [])
      else if Ascii.eqb c ">" then emit (finish_attr t name "")
      else if Ascii.eqb c "=" then (SBeforeAttrValue t name, [])
      else (SAttrName t (String (lower c) name), [])
  | SAfterAttrName t name =>
      if is_space c then (SAfterAttrName t name, [])
      else if Ascii.eqb c "/" then (SSelfClosing (finish_attr t name ""), [])
      else if Ascii.eqb c "=" then (SBeforeAttrValue t name, [])
      else if Ascii.eqb c ">" then emit (finish_attr t name "")
      else begin_attr (finish_attr t name "") c
  | SBeforeAttrValue t name =>
      if is_space c then (SBeforeAttrValue t name, [])
      else if Ascii.eqb c DQUOTE then (SAttrValue DoubleQuoted t name "", [])
      else if Ascii.eqb c "'" then (SAttrValue SingleQuoted t name "", [])
      else if Ascii.eqb c ">" then emit (finish_attr t name "")
      else (SAttrValue Unquoted t name (String c ""), [])
  | SAttrValue DoubleQuoted t name v =>
      if Ascii.eqb c DQUOTE then (SAfterAttrValue (finish_attr t name v), [])
      else (SAttrValue DoubleQuoted t name (String c v), [])
  | SAttrValue SingleQuoted t name v =>
      if Ascii.eqb c "'" then (SAfterAttrValue (finish_attr t name v), [])
      else (SAttrValue SingleQuoted t name (String c v), [])
  | SAttrValue Unquoted t name v =>
      if is_space c then (SBeforeAttrName (finish_attr t name v), [])
      else if Ascii.eqb c ">" then emit (finish_attr t name v)
      else (SAttrValue Unquoted t name (String c v), [])
  | SAfterAttrValue t =>
      if is_space c then (SBeforeAttrName t, [])
      else if Ascii.eqb c "/" then (SSelfClosing t, [])
      else if Ascii.eqb c ">" then emit t
      else begin_attr t c
  | SSelfClosing t =>
      if Ascii.eqb c ">" then emit t
      else if is_space c then (SBeforeAttrName t, [])
      else if Ascii.eqb c "/" then (SSelfClosing t, [])
      else begin_attr t c
  | SMarkupOpen =>
      if Ascii.eqb c "-" then (SMarkupDash, [])
      else if Ascii.eqb c ">" then emit_comment ""
      else (SBogusComment (String c ""), [])
  | SMarkupDash =>
      if Ascii.eqb c "-" then (SCommentStart, [])
      else if Ascii.eqb c ">" then emit_comment "-"
      else (SBogusComment (String c "-"), [])
  | SBogusComment data =>
      if Ascii.eqb c ">" then emit_comment data
      else (SBogusComment (String c data), [])
  | SCommentStart =>
      if Ascii.eqb c "-" then (SCommentStartDash, [])
      else if Ascii.eqb c ">" then emit_comment ""
      else in_comment "" c
  | SCommentStartDash =>
      if Ascii.eqb c "-" then (SCommentEnd "", [])
      else if Ascii.eqb c ">" then emit_comment ""
      else in_comment "-" c
  | SComment data => in_comment data c
  | SCommentEndDash data =>
      if Ascii.eqb c "-" then (SCommentEnd data, [])
      else in_comment (String "-" data) c
  | SCommentEnd data =>
      if Ascii.eqb c ">" then emit_comment data
      else if Ascii.eqb c "!" then (SCommentEndBang data, [])
      else if Ascii.eqb c "-" then (SCommentEnd (String "-" data), [])
      else in_comment (String "-" (String "-" data)) c
  | SCommentEndBang data =>
      if Ascii.eqb c "-" then (SCommentEndDash (String "!" (String "-" (String "-" data))), [])
      else if Ascii.eqb c ">" then emit_comment data
      else in_comment (String "!" (String "-" (String "-" data))) c
  end.

(** At the end of the input a pending text is emitted, an unfinished tag
    is dropped and an unfinished comment is emitted as it stands. *)
Definition finish (st : tstate) : list token :=
  match st with
  | SData text => flush text
  | STagOpen text => flush (String "<" text)
  | SEndTagOpen text => flush (String "/" (String "<" text))
  | SMarkupOpen | SCommentStart | SCommentStartDash => [TkComment ""]
  | SMarkupDash => [TkComment "-"]
  | SBogusComment data | SComment data | SCommentEndDash data
  | SCommentEnd data | SCommentEndBang data => [TkComment (String.rev data)]
  | _ => []
  end.

Fixpoint tokenize_from (st : tstate) (s : string) : list token :=
  match s with
  | EmptyString => finish st
  | String c s' =>
      let '(st', out) := step st c in out ++ tokenize_from st' s'
  end.

Definition tokenize (s : string) : list token := tokenize_from (SData "") s.

(** *** Tree construction *)

Definition void_elements : list string :=
  ["area"; "base"; "br"; "embed"; "hr"; "img"; "input"; "link"; "meta";
   "source"; "track"; "wbr"].

Definition is_void (name : string) : bool :=
  existsb (String.eqb name) void_elements.

(** The tags of the three elements every document has; inside the body
    they do not open or close an element. *)
Definition is_document_tag (name : string) : bool :=
  String.eqb name "html" || String.eqb name "head" || String.eqb name "body".

(** An open element: its name, its attributes and the children it has so
    far, last first. *)
Definition frame : Type := string * list (string * string) * list node.

(** A new last child; a text joins the text node before it. *)
Definition append_child (n : node) (kids : list node) : list node :=
  match n, kids with
  | Text s, Text s0 :: rest => Text (s0 +:+ s) :: rest
  | _, _ => n :: kids
  end.

Definition close_frame (f : frame) : node :=
  let '(name, attrs, kids) := f in Element name attrs (rev kids).

(** [insert_node n root stack]: [n] becomes the last child of the innermost
    open element, or of the root when no element is open. *)
Definition insert_node (n : node) (root : list node) (stack : list frame)
    : list node * list frame :=
  match stack with
  | [] => (append_child n root, [])
  | (name, attrs, kids) :: stack' =>
      (root, (name, attrs, append_child n kids) :: stack')
  end.

Definition is_open (name : string) (stack : list frame) : bool :=
  existsb (fun f : frame => String.eqb (fst (fst f)) name) stack.

Definition append_pending (pending : option node) (kids : list node)
    : list node :=
  match pending with
  | Some n => append_child n kids
  | None => kids
  end.

(** Closes the open elements up to and including the innermost [name];
    [pending] is the element just closed, still to be given to its
    parent. *)
Fixpoint close_until (name : string) (pending : option node)
    (root : list node) (stack : list frame) : list node * list frame :=
  match stack with
  | [] => (append_pending pending root, [])
  | (n, attrs, kids) :: stack' =>
      let el := close_frame (n, attrs, append_pending pending kids) in
      if String.eqb n name then insert_node el root stack'
      else close_until name (Some el) root stack'
  end.

Fixpoint close_all (pending : option node) (root : list node)
    (stack : list frame) : list node :=
  match stack with
  | [] => rev (append_pending pending root)
  | (n, attrs, kids) :: stack' =>
      close_all (Some (close_frame (n, attrs, append_pending pending kids)))
        root stack'
  end.

Fixpoint build (root : list node) (stack : list frame) (toks : list token)
    : list node :=
  match toks with
  | [] => close_all None root stack
  | TkText text :: toks' =>
      let '(root', stack') := insert_node (Text text) root stack in
      build root' stack' toks'
  | TkComment data :: toks' =>
      let '(root', stack') := insert_node (Comment data) root stack in
      build root' stack' toks'
  | TkStart name attrs :: toks' =>
      if is_document_tag name then build root stack toks'
      else if is_void name then
        let '(root', stack') := insert_node (Element name attrs []) root stack in
        build root' stack' toks'
      else build root ((name, attrs, []) :: stack) toks'
  | TkEnd name :: toks' =>
      if is_document_tag name then build root stack toks'
      else if is_open name stack then
        let '(root', stack') := close_until name None root stack in
        build root' stack' toks'
      else build root stack toks'
  end.

(** The children the markup [s] is parsed into. *)
Definition parse (s : string) : list node := build [] [] (tokenize s).

(** The root element of the document for [s]: [html] with an empty
    [head] and the [body] the markup goes into. *)
Definition parseFromString (s : string) : node :=
  Element "html" [] [Element "head" [] []; Element "body" [] (parse s)].

(** The [innerHTML] setter. *)
Definition parseFragment (context : node) (s : string) : list node := parse s.

(** *** Serialization *)

Definition escape_text (s : string) : string :=
  replace_char ">" "&gt;" (replace_char "<" "&lt;" (replace_char "&" "&amp;" s)).

Definition escape_attribute (s : string) : string :=
  replace_char DQUOTE "&quot;" (replace_char "&" "&amp;" s).

Definition serialize_attributes (attrs : list (string * string)) : string :=
  fold_right (fun a acc =>
                " " +:+ fst a +:+ "=" +:+
                String DQUOTE (escape_attribute (snd a) +:+ String DQUOTE acc))
             "" attrs.

Fixpoint serialize (n : node) : string :=
  match n with
  | Element name attrs kids =>
      "<" +:+ name +:+ serialize_attributes attrs +:+ ">" +:+
      (if is_void name then ""
       else fold_right (fun k acc => serialize k +:+ acc) "" kids +:+
            "</" +:+ name +:+ ">")
  | Text s => escape_text s
  | Comment d => "<!--" +:+ d +:+ "-->"
  end.

(** The [innerHTML] getter. *)
Definition innerHTML (n : node) : string :=
  match n with
  | Element _ _ kids => fold_right (fun k acc => serialize k +:+ acc) "" kids
  | _ => ""
  end.

(** The names [setAttribute] takes, by the DOM standard: not empty and
    without white space, NUL, [/], [=] and [>].  The tokenizer above lets
    a name start with [=], so it produces names that are not taken. *)
Definition valid_attribute_name (name : string) : bool :=
  negb (String.eqb name "") &&
  forallb (fun c => negb (is_space c || Ascii.eqb c NUL || Ascii.eqb c "/" ||
                          Ascii.eqb c "=" || Ascii.eqb c ">"))
          (list_ascii_of_string name).

(** [TrustedHTML.fromTemplateLiteral] on this host. *)
Definition fromTemplateLiteral (fuel : nat) (strings : list string)
    (expressions : list value) : outcome TrustedHTML :=
  fromTemplateLiteral parseFromString innerHTML parseFragment
    valid_attribute_name fuel strings expressions.

End Host.

(** ** Notions used in the statements *)

(** The value of a string of decimal digits read from the left, from the
    value [acc] of the digits read so far: the loop of [Number_of_digits]. *)
Fixpoint digits_value_from (acc : N) (s : string) : N :=
  match s with
  | EmptyString => acc
  | String c s' => digits_value_from (acc * 10 + (N_of_ascii c - 48))%N s'
  end.

(** No character of the string is one of the six [escape] replaces. *)
Fixpoint all_plain (s : string) : bool :=
  match s with
  | EmptyString => true
  | String c s' => negb (is_special c) && all_plain s'
  end.

(** The characters a marker is written with. *)
Definition marker_char (c : ascii) : bool := Ascii.eqb c "$" || is_digit c.

(** The [n] indices from [i] on. *)
Fixpoint N_seq (i : N) (n : nat) : list N :=
  match n with
  | O => []
  | S n' => i :: N_seq (N.succ i) n'
  end.

(** Every attribute value is free of markers, or it is one marker and
    nothing else. *)
Definition simple_values (attrs : list (string * string)) : Prop :=
  Forall (fun a => has_marker (snd a) = false \/
                   exists partId, pieces (snd a) = [Marker partId]) attrs.

(** The attributes of an element have distinct names and simple values;
    nothing is asked of the other nodes. *)
Definition simple_attributes (n : node) : Prop :=
  match n with
  | Element _ attrs _ => NoDup (map fst attrs) /\ simple_values attrs
  | _ => True
  end.

(** The attributes of an element that have a marker have names
    [setAttribute] takes. *)
Definition names_taken (valid_attribute_name : string -> bool) (n : node) : Prop :=
  match n with
  | Element _ attrs _ =>
      Forall (fun a => has_marker (snd a) = true ->
                       valid_attribute_name (fst a) = true) attrs
  | _ => True
  end.

(** Two nodes of the same kind: elements with the same tag and the same
    attribute names in the same order, two text nodes, or comments with
    the same data. *)
Definition same_kind (n n' : node) : Prop :=
  match n, n' with
  | Element t a _, Element t' a' _ => t' = t /\ map fst a' = map fst a
  | Text _, Text _ => True
  | Comment d, Comment d' => d' = d
  | _, _ => False
  end.

(** [node.childNodes]; a text node and a comment have none. *)
Definition children_of (n : node) : list node :=
  match n with
  | Element _ _ kids => kids
  | _ => []
  end.

(** The call is [freezeConfiguration]. *)
Definition is_freeze (k : call) : bool :=
  match k with
  | Call_freezeConfiguration => true
  | _ => false
  end.

(** The errors the engine ends with: the one of its own check, and the
    two of the calls it makes for an attribute and a text. *)
Definition engine_error (e : error) : bool :=
  match e with
  | UntrustedMarkupError | ConversionError | InvalidCharacterError => true
  | _ => false
  end.


(** * Properties *)

(** ** Strings *)

Lemma append_cons (c : ascii) (s t : string) : String c s +:+ t = String c (s +:+ t).
Proof. reflexivity. Qed.

Lemma append_nil_l (s : string) : "" +:+ s = s.
Proof. reflexivity. Qed.

Lemma append_nil_r (s : string) : s +:+ "" = s.
Proof. induction s as [|c s IH]; [reflexivity|]. by rewrite append_cons, IH. Qed.

Lemma append_assoc (s t u : string) : (s +:+ t) +:+ u = s +:+ (t +:+ u).
Proof. induction s as [|c s IH]; [reflexivity|]. by rewrite !append_cons, IH. Qed.

Lemma toString_inner (t : TrustedHTML) : toString t = inner_ t.
Proof. reflexivity. Qed.

Lemma toString_new (s : string) : toString (new_TrustedHTML s) = s.
Proof. reflexivity. Qed.

Lemma replace_char_app (c : ascii) (r a b : string) :
  replace_char c r (a +:+ b) = replace_char c r a +:+ replace_char c r b.
Proof.
  induction a as [|x a IH]; [reflexivity|].
  rewrite append_cons. simpl. destruct (Ascii.eqb x c).
  - by rewrite IH, append_assoc.
  - by rewrite IH.
Qed.

Lemma replace_char_cons (c : ascii) (r : string) (x : ascii) (s : string) :
  replace_char c r (String x s) =
  replace_char c r (String x "") +:+ replace_char c r s.
Proof. apply (replace_char_app c r (String x "") s). Qed.

(** One replacement pass met by the character [x] at the head of the
    text: either [x] is the character [c] of the pass, and the rest is a
    computation on the escape sequence written, or the pass leaves [x]. *)
Ltac escape_pass x c :=
  let E := fresh "E" in
  rewrite (replace_char_app c);
  destruct (Ascii.eqb x c) eqn:E;
  [ apply Ascii.eqb_eq in E as ->; by rewrite ?replace_char_app
  | cbn [replace_char]; rewrite ?E ].

(** One pass over the whole text: the six passes of the source write, for
    every character, its escape sequence. *)
Lemma escaped_each (s : string) : escaped s = escape_each s.
Proof.
  induction s as [|x s IH]; [reflexivity|].
  simpl escape_each. rewrite <- IH. unfold escaped, escape_char.
  change (String x s) with (String x "" +:+ s).
  escape_pass x "&"%char. escape_pass x "<"%char. escape_pass x ">"%char.
  escape_pass x DQUOTE. escape_pass x "'"%char. escape_pass x NUL.
  reflexivity.
Qed.

(** Case analysis on a character: it is one of the six, in the order of
    [escape_char], or none of them. *)
Ltac special_cases c :=
  unfold escape_char, is_special;
  destruct (Ascii.eqb c "&") eqn:?E;
    [|destruct (Ascii.eqb c "<") eqn:?E;
      [|destruct (Ascii.eqb c ">") eqn:?E;
        [|destruct (Ascii.eqb c DQUOTE) eqn:?E;
          [|destruct (Ascii.eqb c "'") eqn:?E;
            [|destruct (Ascii.eqb c NUL) eqn:?E]]]]];
  try match goal with
      | H : Ascii.eqb c _ = true |- _ => apply Ascii.eqb_eq in H; subst c
      end.

Lemma escape_char_cases (c : ascii) :
  (is_special c = false /\ escape_char c = String c "") \/
  (is_special c = true /\ In (escape_char c, c) entities).
Proof.
  special_cases c; [right; split; [reflexivity|simpl; auto 8]..|left; auto].
Qed.

Lemma escape_each_escaped_text (s : string) : escaped_text (escape_each s).
Proof.
  induction s as [|c s IH]; simpl; [constructor|].
  destruct (escape_char_cases c) as [[Hc ->]|[_ Hin]].
  - rewrite append_cons, append_nil_l. by constructor.
  - by apply escaped_entity with c.
Qed.

Lemma occurs_app (c : ascii) (a b : string) :
  occurs c (a +:+ b) = occurs c a || occurs c b.
Proof.
  induction a as [|x a IH]; [reflexivity|].
  rewrite append_cons. simpl. rewrite IH. by rewrite orb_assoc.
Qed.

(** The five characters other than the ampersand do not occur in an
    escaped text at all. *)
Lemma escape_each_occurs (c : ascii) (s : string) :
  is_special c = true -> c <> "&"%char -> occurs c (escape_each s) = false.
Proof.
  intros Hc Hamp. induction s as [|x s IH]; [reflexivity|].
  simpl. rewrite occurs_app, IH, orb_false_r.
  destruct (escape_char_cases x) as [[Hx ->]|[_ Hin]].
  - simpl. rewrite orb_false_r. apply Ascii.eqb_neq. intros ->. congruence.
  - unfold is_special in Hc.
    repeat (apply orb_prop in Hc as [Hc|Hc]);
      apply Ascii.eqb_eq in Hc; subst c; try congruence;
      simpl in Hin; intuition (simplify_eq; reflexivity).
Qed.

Lemma after_prefix_head_ne (a b : ascii) (p s : string) :
  Ascii.eqb a b = false -> after_prefix (String a p) (String b s) = None.
Proof. intros H. cbn [after_prefix]. by rewrite H. Qed.

Lemma entity_at_plain (c : ascii) (s : string) :
  Ascii.eqb c "&" = false -> entity_at entities (String c s) = None.
Proof.
  intros H. rewrite Ascii.eqb_sym in H.
  unfold entities. cbn [entity_at].
  by rewrite !(after_prefix_head_ne _ _ _ _ H).
Qed.

Lemma unescape_escape_char (c : ascii) (rest : string) :
  unescape_from 0 (escape_char c +:+ rest) = String c (unescape_from 0 rest).
Proof.
  special_cases c; [reflexivity..|].
  rewrite append_cons, append_nil_l.
  change (unescape_from 0 (String c rest)) with
    (match entity_at entities (String c rest) with
     | Some (c', k) => String c' (unescape_from k rest)
     | None => String c (unescape_from 0 rest)
     end).
  by rewrite entity_at_plain.
Qed.

Lemma unescape_escape_each (s : string) : unescape (escape_each s) = s.
Proof.
  unfold unescape. induction s as [|c s IH]; [reflexivity|].
  simpl escape_each. by rewrite unescape_escape_char, IH.
Qed.

(** With the ampersand replaced last, the entities the other five passes
    wrote are escaped a second time. *)
Example ampersand_last_double_escapes :
  escaped_ampersand_last "<" = "&amp;lt;" /\ escaped "<" = "&lt;".
Proof. split; reflexivity. Qed.

(** C6. [escape] is a function of its argument alone; for every string [s]
    the text of [escape(s)] is what the six replacements of the source give
    in their order, ampersand first, and that is the text in which every
    character of [s] is written as its own escape sequence (no later pass
    touches what an earlier pass wrote); in it the characters [<], [>],
    the two quotes and NUL do not occur, every [&] starts one of the six
    escape sequences, and decoding the escape sequences gives [s] back. *)
Theorem C6_escape_round_trip (s : string) :
  toString (escape s) =
    replace_char NUL "&#0;"
      (replace_char "'" "&#39;"
        (replace_char DQUOTE "&quot;"
          (replace_char ">" "&gt;"
            (replace_char "<" "&lt;"
              (replace_char "&" "&amp;" s))))) /\
  toString (escape s) = escape_each s /\
  escaped_text (toString (escape s)) /\
  (forall c, is_special c = true -> c <> "&"%char ->
             occurs c (toString (escape s)) = false) /\
  unescape (toString (escape s)) = s.
Proof.
  assert (H : toString (escape s) = escape_each s).
  { rewrite toString_inner. simpl. apply escaped_each. }
  split; [reflexivity|]. split; [exact H|]. rewrite H.
  split; [apply escape_each_escaped_text|].
  split; [intros c Hc Hamp; by apply escape_each_occurs|].
  apply unescape_escape_each.
Qed.

(** ** Configuration *)

(** C4. For every string [s] and every configuration: the gate is closed
    (the [allowUnsafelyCreate] getter tells [false]) exactly when
    [unsafelyCreate(s)] throws the gate error, and it is open exactly when
    the call returns a wrapper whose [toString()] is [s]. *)
Theorem C4_unsafelyCreate_gate (s : string) (c : config) :
  (get_allowUnsafelyCreate c = false <->
     unsafelyCreate s c = Throw GateClosedError) /\
  (get_allowUnsafelyCreate c = true <->
     exists t, unsafelyCreate s c = Ok t /\ toString t = s).
Proof.
  unfold get_allowUnsafelyCreate, unsafelyCreate.
  destruct (allowed c); simpl; split; split; try done.
  - intros _. eexists. split; [reflexivity|apply toString_new].
  - intros [t [Ht _]]. discriminate.
Qed.

(** The earlier revision has no gate: [unsafelyCreate] always returns. *)
Lemma Legacy_unsafelyCreate_text (s : string) :
  toString (Legacy.unsafelyCreate s) = s.
Proof. reflexivity. Qed.

(** C10. In the state the module is loaded with, the getter of
    [allowUnsafelyCreate] tells [true], and for every string [s]
    [unsafelyCreate(s)] returns a wrapper whose [toString()] is [s]. *)
Theorem C10_gate_initially_open (s : string) :
  get_allowUnsafelyCreate initial_config = true /\
  exists t, unsafelyCreate s initial_config = Ok t /\ toString t = s.
Proof.
  split; [reflexivity|]. exists (new_TrustedHTML s). split; reflexivity.
Qed.

Lemma frozen_freezeConfiguration (c : config) : frozen (freezeConfiguration c).
Proof. split; reflexivity. Qed.

(** On a frozen registry a registration changes nothing, and it throws
    unless it hands the [__proto__] setter the prototype the registry
    already has. *)
Lemma registerSanitizer_frozen f id (c : config) :
  frozen c ->
  registerSanitizer f id c =
  (if String.eqb (default DEFAULT_SANITIZER_ id) "__proto__" && is_prototype c f
   then Ok () else Throw RegistryFrozenError, c).
Proof.
  intros [H _]. unfold registerSanitizer. rewrite H.
  destruct (String.eqb _ "__proto__"); [|reflexivity].
  by destruct (is_prototype c f).
Qed.

Lemma set_allowUnsafelyCreate_frozen v (c : config) :
  frozen c -> set_allowUnsafelyCreate v c = (Throw RegistryFrozenError, c).
Proof. intros [_ H]. unfold set_allowUnsafelyCreate. by rewrite H. Qed.

Lemma freezeConfiguration_frozen (c : config) :
  frozen c -> freezeConfiguration c = c.
Proof. destruct c as [s p sf a af]. intros [H1 H2]. simpl in *. by subst. Qed.

Lemma perform_frozen (c : config) (k : call) :
  frozen c -> snd (perform c k) = c.
Proof.
  intros H. destruct k as [f id|v|]; simpl.
  - by rewrite registerSanitizer_frozen.
  - by rewrite set_allowUnsafelyCreate_frozen.
  - by apply freezeConfiguration_frozen.
Qed.

Lemma perform_all_frozen (c : config) (ks : list call) :
  frozen c -> perform_all c ks = c.
Proof.
  intros H. induction ks as [|k ks IH]; [reflexivity|].
  unfold perform_all in *. simpl. by rewrite perform_frozen.
Qed.

(** C5. Take any configuration, call [freezeConfiguration], and then make
    any further calls.  In the configuration reached, every
    [registerSanitizer] call leaves the configuration as it was, and it
    throws the frozen-registry error with one exception: under the key
    [__proto__] the call returns normally when the function is the
    prototype the registry already has.  Every call of the
    [allowUnsafelyCreate] setter throws that error and leaves the
    configuration as it was, and a further [freezeConfiguration] returns
    normally and changes nothing; the registry, its prototype and the
    gate still are what they were when the configuration was frozen. *)
Theorem C5_frozen_configuration (c0 : config) (later : list call)
    (sanitizer : function_object) (optSanitizerId : option string)
    (value : bool) :
  let c := perform_all (freezeConfiguration c0) later in
  let id := default DEFAULT_SANITIZER_ optSanitizerId in
  snd (registerSanitizer sanitizer optSanitizerId c) = c /\
  fst (registerSanitizer sanitizer optSanitizerId c) =
    (if String.eqb id "__proto__" && is_prototype c sanitizer
     then Ok () else Throw RegistryFrozenError) /\
  set_allowUnsafelyCreate value c = (Throw RegistryFrozenError, c) /\
  perform c Call_freezeConfiguration = (Ok (), c) /\
  sanitizers_ c = sanitizers_ c0 /\
  sanitizers_prototype c = sanitizers_prototype c0 /\
  get_allowUnsafelyCreate c = get_allowUnsafelyCreate c0.
Proof.
  intros c id. subst c id.
  rewrite perform_all_frozen by apply frozen_freezeConfiguration.
  pose proof (frozen_freezeConfiguration c0) as H.
  rewrite registerSanitizer_frozen by done.
  split; [reflexivity|]. split; [reflexivity|].
  split; [by apply set_allowUnsafelyCreate_frozen|].
  split; [|repeat split; reflexivity].
  simpl. by rewrite freezeConfiguration_frozen.
Qed.

(** C5 as stated fails: a function registered under [__proto__] before
    the freeze is registered there again after it, and the call returns
    normally. *)
Lemma C5_counterexample :
  registerSanitizer (arrow_function 1 (fun s => s) (Ok "undefined")) (Some "__proto__")
    (perform_all initial_config
       [Call_registerSanitizer (arrow_function 1 (fun s => s) (Ok "undefined"))
          (Some "__proto__");
        Call_freezeConfiguration])
  = (Ok (),
     perform_all initial_config
       [Call_registerSanitizer (arrow_function 1 (fun s => s) (Ok "undefined"))
          (Some "__proto__");
        Call_freezeConfiguration]) /\
  fst (registerSanitizer (arrow_function 1 (fun s => s) (Ok "undefined"))
         (Some "__proto__")
         (perform_all initial_config
            [Call_registerSanitizer (arrow_function 1 (fun s => s) (Ok "undefined"))
               (Some "__proto__");
             Call_freezeConfiguration]))
  <> Throw RegistryFrozenError.
Proof. split; [reflexivity|discriminate]. Qed.

(** Another function under [__proto__], and any function under another
    key, are refused after the freeze. *)
Example registration_refused_after_freeze :
  registerSanitizer (arrow_function 2 (fun s => s) (Ok "undefined")) (Some "__proto__")
    (freezeConfiguration initial_config)
  = (Throw RegistryFrozenError, freezeConfiguration initial_config) /\
  registerSanitizer (arrow_function 2 (fun s => s) (Ok "undefined")) None
    (freezeConfiguration initial_config)
  = (Throw RegistryFrozenError, freezeConfiguration initial_config).
Proof. split; reflexivity. Qed.

Section Sanitize.

Variable Object_prototype :
  string -> option (gmap string function_object -> string -> outcome string).

(** A registered sanitizer is applied and its result wrapped. *)
Lemma sanitize_registered (html id : string) (f : function_object) (c : config) :
  sanitizers_ c !! id = Some f ->
  sanitize Object_prototype html (Some id) c = Ok (new_TrustedHTML (call_ f html)).
Proof. intros H. unfold sanitize, get_sanitizer. simpl. by rewrite H. Qed.

(** An ID for which the lookup finds nothing is rejected. *)
Lemma sanitize_not_found (html id : string) (c : config) :
  get_sanitizer Object_prototype c id = None ->
  sanitize Object_prototype html (Some id) c = Throw (UnknownSanitizerError id).
Proof. intros H. unfold sanitize. simpl. by rewrite H. Qed.

(** With the prototype of an object literal: an ID that is neither
    registered nor a member of the prototype is rejected. *)
Lemma sanitize_unknown (html id : string) (c : config) :
  sanitizers_ c !! id = None -> sanitizers_prototype c = None ->
  Object_prototype id = None ->
  sanitize Object_prototype html (Some id) c = Throw (UnknownSanitizerError id).
Proof.
  intros H1 H2 H3. apply sanitize_not_found. unfold get_sanitizer.
  by rewrite H1, H2, H3.
Qed.

(** A key found on the prototype and not on the registry passes the guard:
    the member is called and what it returns is wrapped. *)
Lemma sanitize_inherited (html id : string) (c : config)
    (m : gmap string function_object -> string -> outcome string) :
  sanitizers_ c !! id = None -> sanitizers_prototype c = None ->
  Object_prototype id = Some m ->
  sanitize Object_prototype html (Some id) c =
  (r ← m (sanitizers_ c) html; Ok (new_TrustedHTML r)).
Proof.
  intros H1 H2 H3. unfold sanitize, get_sanitizer. simpl. by rewrite H1, H2, H3.
Qed.

(** Without an ID the call uses the ID 'default'. *)
Lemma sanitize_default (html : string) (c : config) :
  sanitize Object_prototype html None c =
  sanitize Object_prototype html (Some "default") c.
Proof. reflexivity. Qed.

(** What a registration that returns normally does to the registry. *)
Lemma registerSanitizer_own (f : function_object) (id : string) (c : config) :
  sanitizers_frozen c = false -> String.eqb id "__proto__" = false ->
  refused_by_prototype c id = false ->
  registerSanitizer f (Some id) c =
  (Ok (),
   {| sanitizers_ := <[id := f]> (sanitizers_ c);
      sanitizers_prototype := sanitizers_prototype c;
      sanitizers_frozen := false;
      allowed := allowed c;
      allowUnsafelyCreate_frozen := allowUnsafelyCreate_frozen c |}).
Proof.
  intros H1 H2 H3. unfold registerSanitizer.
  change (default DEFAULT_SANITIZER_ (Some id)) with id. by rewrite H2, H1, H3.
Qed.

(** What [registerSanitizer] stores is what [sanitize] applies. *)
Lemma sanitize_after_register (html id : string) (f : function_object) (c : config) :
  sanitizers_frozen c = false -> String.eqb id "__proto__" = false ->
  refused_by_prototype c id = false ->
  sanitize Object_prototype html (Some id)
    (snd (registerSanitizer f (Some id) c)) = Ok (new_TrustedHTML (call_ f html)).
Proof.
  intros H1 H2 H3. apply sanitize_registered.
  rewrite registerSanitizer_own by done. simpl. apply lookup_insert_eq.
Qed.

(** Once a function is the prototype of the registry, the keys it is
    found under pass the guard: [call] is found on it, and the call with
    the registry as receiver throws. *)
Example sanitize_through_function_prototype :
  sanitize Object_prototype_members "x" (Some "call")
    (snd (registerSanitizer (arrow_function 1 (fun s => s) (Ok "undefined"))
            (Some "__proto__") initial_config))
  = Throw HostTypeError.
Proof. reflexivity. Qed.

End Sanitize.

(** C7, at the ID 'constructor'.  Nothing is registered, and yet the call
    does not throw: the lookup finds the member of that name every object
    inherits, calls it, and the wrapper returned shows the input
    unchanged. *)
Theorem C7_sanitize_inherited_member (html : string) :
  sanitizers_ initial_config !! "constructor" = None /\
  sanitize Object_prototype_members html (Some "constructor") initial_config
    = Ok (new_TrustedHTML html) /\
  sanitize Object_prototype_members html (Some "toString") initial_config
    = Ok (new_TrustedHTML "[object Object]").
Proof. split; [apply lookup_empty|]. split; reflexivity. Qed.

(** ** The engine *)

(** *** The pattern *)

Lemma pieces_cons (a : ascii) (s : string) :
  pieces (String a s) =
  match match_marker (String a s) with
  | Some (ds, _) => Marker ds :: pieces_from (5 + String.length ds) s
  | None => Lit a :: pieces s
  end.
Proof. reflexivity. Qed.

Lemma has_marker_first_marker (s : string) :
  has_marker s = false <-> first_marker s = None.
Proof.
  unfold has_marker, first_marker. generalize (pieces s) as ps.
  induction ps as [|[c|ds] ps IH]; simpl; [done|exact IH|done].
Qed.

Lemma has_marker_marker_ids (s : string) (i : N) :
  In i (marker_ids s) -> has_marker s = true.
Proof.
  unfold marker_ids, has_marker. generalize (pieces s) as ps.
  induction ps as [|[c|ds] ps IH]; simpl; [done|exact IH|done].
Qed.

(** Without a match the replacement returns the text it was given. *)
Lemma replace_markers_no_marker (f : string -> string) (s : string) :
  has_marker s = false -> replace_markers f s = s.
Proof.
  unfold has_marker, replace_markers.
  induction s as [|a s IH]; [done|].
  rewrite pieces_cons. destruct (match_marker (String a s)) as [[ds rest]|]; [done|].
  simpl. intros H. by rewrite IH.
Qed.

Lemma bind_Ok {A B : Type} (a : A) (k : A -> outcome B) : (x ← Ok a; k x) = k a.
Proof. reflexivity. Qed.

Lemma bind_Throw {A B : Type} (e : error) (k : A -> outcome B) :
  (x ← Throw e; k x) = Throw e.
Proof. reflexivity. Qed.

Lemma bind_OutOfFuel {A B : Type} (k : A -> outcome B) :
  (x ← OutOfFuel; k x) = OutOfFuel.
Proof. reflexivity. Qed.

Ltac bind_step := rewrite ?bind_Ok, ?bind_Throw, ?bind_OutOfFuel in *.

Lemma mapM_cons {A B : Type} (f : A -> outcome B) (x : A) (l : list A) :
  mapM f (x :: l) = (y ← f x; k ← mapM f l; Ok (y :: k)).
Proof. reflexivity. Qed.

Lemma mapM_ok_lookup {A B : Type} (f : A -> outcome B) (l : list A) (l' : list B) :
  mapM f l = Ok l' ->
  length l' = length l /\
  forall i x, l !! i = Some x -> exists y, f x = Ok y /\ l' !! i = Some y.
Proof.
  revert l'. induction l as [|x l IH]; intros l'.
  - intros [= <-]. split; [done|]. intros i x H. by rewrite lookup_nil in H.
  - rewrite mapM_cons. destruct (f x) as [y| |] eqn:Ey; [|done..].
    simpl. destruct (mapM f l) as [k| |] eqn:Ek; [|done..].
    simpl. intros [= <-]. destruct (IH k eq_refl) as [Hlen Hk].
    split; [simpl; by rewrite Hlen|].
    intros [|i] x' Hi; simpl in *.
    + simplify_eq. eauto.
    + by apply Hk.
Qed.

Lemma mapM_ok_In {A B : Type} (f : A -> outcome B) (l : list A) (l' : list B)
    (a : A) :
  mapM f l = Ok l' -> In a l -> exists b, f a = Ok b /\ In b l'.
Proof.
  intros H Hin. apply list_elem_of_In, list_elem_of_lookup in Hin as [i Hi].
  destruct (mapM_ok_lookup _ _ _ H) as [_ Hl].
  destruct (Hl i a Hi) as [b [Hb Hf]]. exists b. split; [done|].
  apply list_elem_of_In, list_elem_of_lookup. eauto.
Qed.

Lemma mapM_ok_same {A : Type} (f : A -> outcome A) (l : list A) :
  (forall x, In x l -> f x = Ok x) -> mapM f l = Ok l.
Proof.
  induction l as [|x l IH]; intros H; [done|].
  rewrite mapM_cons, H by (by left). simpl.
  rewrite IH; [done|]. intros y Hy. apply H. by right.
Qed.

Lemma mapM_more {A B : Type} (f g : A -> outcome B) (l : list A) (r : outcome (list B)) :
  (forall x o, In x l -> f x = o -> o <> OutOfFuel -> g x = o) ->
  mapM f l = r -> r <> OutOfFuel -> mapM g l = r.
Proof.
  revert r. induction l as [|x l IH]; intros r H Hr Hne; [done|].
  rewrite mapM_cons in *.
  destruct (f x) as [y|e|] eqn:Ey.
  - rewrite (H x (Ok y)) by (done || by left). simpl in *.
    destruct (mapM f l) as [k|e|] eqn:Ek.
    + rewrite (IH (Ok k)); [done| |done..]. intros; apply H; [by right|done..].
    + rewrite (IH (Throw e)); [done| |done..]. intros; apply H; [by right|done..].
    + simpl in Hr. congruence.
  - rewrite (H x (Throw e)) by (done || by left). done.
  - simpl in Hr. congruence.
Qed.

(** The conversion of a value returns its text or throws its one error. *)
Lemma ToString_cases (v : value) :
  ToString v = Ok (text_of v) \/ ToString v = Throw ConversionError.
Proof. unfold text_of. destruct v as [| |[|]| | | |[s|]|]; auto. Qed.


(** A replacement whose callback returns at every match returns the
    text with the matches replaced. *)
Lemma replace_pieces_checked_ok (f : string -> outcome string)
    (g : string -> string) (ps : list piece) :
  (forall ds, In (Marker ds) ps -> f ds = Ok (g ds)) ->
  replace_pieces_checked f ps = Ok (fold_right (render g) "" ps).
Proof.
  induction ps as [|[c|ds] ps IH]; simpl; intros H; [done| |].
  - rewrite IH; [done|]. intros ds Hds. apply H. by right.
  - rewrite (H ds) by (by left).
    rewrite IH; [done|]. intros ds' Hds. apply H. by right.
Qed.

(** A replacement that returns: its callback returned at every match. *)
Lemma replace_pieces_checked_inv (f : string -> outcome string)
    (ps : list piece) (r : string) :
  replace_pieces_checked f ps = Ok r ->
  forall ds, In (Marker ds) ps -> exists s, f ds = Ok s.
Proof.
  revert r. induction ps as [|[c|ds] ps IH]; simpl; intros r H ds' Hin; [done| |].
  - destruct Hin as [?|Hin]; [done|].
    destruct (replace_pieces_checked f ps) as [r'| |] eqn:E; [|done..]. eauto.
  - destruct (f ds) as [s| |] eqn:Ef; [|done..].
    destruct (replace_pieces_checked f ps) as [r'| |] eqn:E; [|done..].
    destruct Hin as [Heq|Hin]; [simplify_eq; eauto|eauto].
Qed.

Section Checked.

Variable results : list value.

Lemma trusted_result_ok (ds : string) :
  instanceof_TrustedHTML (result_of results ds) = true ->
  trusted_result results ds = Ok (text_of (result_of results ds)).
Proof.
  intros H. unfold trusted_result, text_of. rewrite H.
  by destruct (result_of results ds).
Qed.

Lemma trusted_result_throw (ds : string) :
  instanceof_TrustedHTML (result_of results ds) = false ->
  trusted_result results ds = Throw UntrustedMarkupError.
Proof. intros H. unfold trusted_result. by rewrite H. Qed.

Lemma trusted_result_cases (ds : string) :
  trusted_result results ds = Ok (text_of (result_of results ds)) \/
  trusted_result results ds = Throw UntrustedMarkupError.
Proof.
  destruct (instanceof_TrustedHTML (result_of results ds)) eqn:E.
  - left. by apply trusted_result_ok.
  - right. by apply trusted_result_throw.
Qed.

(** The checked replacement either returns what the unchecked one
    returns or throws the one error of its callback. *)
Lemma replace_pieces_checked_cases (ps : list piece) :
  replace_pieces_checked (trusted_result results) ps =
    Ok (fold_right (render (fun ds => text_of (result_of results ds))) "" ps) \/
  replace_pieces_checked (trusted_result results) ps = Throw UntrustedMarkupError.
Proof.
  induction ps as [|[c|ds] ps IH]; simpl; [by left| |].
  - destruct IH as [-> | ->]; [by left|by right].
  - destruct (trusted_result_cases ds) as [-> | ->]; [|by right].
    destruct IH as [-> | ->]; [by left|by right].
Qed.


Lemma replace_pieces_checked_untrusted (ps : list piece) (ds : string) :
  In (Marker ds) ps ->
  instanceof_TrustedHTML (result_of results ds) = false ->
  replace_pieces_checked (trusted_result results) ps = Throw UntrustedMarkupError.
Proof.
  intros Hin Hds. induction ps as [|[c|ds'] ps IH]; simpl; [done| |].
  - destruct Hin as [?|Hin]; [done|]. by rewrite IH.
  - destruct Hin as [Heq|Hin].
    + simplify_eq. by rewrite trusted_result_throw.
    + destruct (trusted_result_cases ds') as [-> | ->]; [|done].
      simpl. by rewrite IH.
Qed.

Lemma marker_ids_In (s : string) (i : N) :
  In i (marker_ids s) <->
  exists ds, In (Marker ds) (pieces s) /\ Number_of_digits ds = i.
Proof.
  unfold marker_ids. generalize (pieces s) as ps.
  induction ps as [|[c|ds] ps IH]; simpl.
  - split; [done|]. by intros [? [[] _]].
  - rewrite IH. split; intros [ds [H1 H2]]; exists ds; split; auto.
    by destruct H1.
  - split.
    + intros [Heq|Hin]; [exists ds; auto|].
      apply IH in Hin as [ds' [H1 H2]]. exists ds'; auto.
    + intros [ds' [[Heq|Hin] H2]]; [simplify_eq; by left|].
      right. apply IH. eauto.
Qed.


Lemma replace_markers_checked_untrusted (s : string) (i : N) :
  In i (marker_ids s) ->
  instanceof_TrustedHTML (element_at results i) = false ->
  replace_markers_checked (trusted_result results) s = Throw UntrustedMarkupError.
Proof.
  intros Hin Hi. apply marker_ids_In in Hin as [ds [H1 H2]].
  apply replace_pieces_checked_untrusted with ds; [done|].
  unfold result_of. by rewrite H2.
Qed.

End Checked.

(** *** Attributes *)

Section Attributes.

Variable valid_attribute_name : string -> bool.
Variable results : list value.


Lemma attribute_after_name (a : string * string) :
  fst ((attribute_after results) a) = fst a.
Proof. unfold attribute_after. by destruct (first_marker (snd a)). Qed.

Lemma attribute_after_pair (name v : string) :
  (attribute_after results) (name, v) =
  match first_marker v with
  | Some partId => (name, text_of (result_of results partId))
  | None => (name, v)
  end.
Proof. reflexivity. Qed.

Lemma attributes_with_middle (name v v0 : string) (l1 l2 : list (string * string)) :
  ~ In name (map fst l1) ->
  attributes_with name v (l1 ++ (name, v0) :: l2) = l1 ++ (name, v) :: l2.
Proof.
  induction l1 as [|[n w] l1 IH]; simpl; intros H.
  - by rewrite String.eqb_refl.
  - destruct (String.eqb n name) eqn:E.
    + apply String.eqb_eq in E. tauto.
    + rewrite IH; [done|tauto].
Qed.

Lemma attributes_with_names (name value : string) (attrs : list (string * string)) :
  In name (map fst attrs) ->
  map fst (attributes_with name value attrs) = map fst attrs.
Proof.
  induction attrs as [|[n v] attrs IH]; [done|]. cbn [attributes_with map fst In].
  destruct (String.eqb n name) eqn:E; [done|].
  intros [->|H]; [by rewrite String.eqb_refl in E|].
  cbn [map fst]. by rewrite IH.
Qed.

(** A turn of the loop that returns keeps the names. *)
Lemma process_attribute_names (attrs attrs' : list (string * string)) (i : nat) :
  process_attribute valid_attribute_name results attrs i = Ok attrs' ->
  map fst attrs' = map fst attrs.
Proof.
  unfold process_attribute, setAttribute.
  destruct (attrs !! i) as [[name v]|] eqn:E; [|by intros [= <-]].
  destruct (first_marker v); [|by intros [= <-]].
  destruct (replaceWithExpressionResult_ results s) as [value| |]; [|done..].
  rewrite bind_Ok. destruct (valid_attribute_name name); [|done].
  intros [= <-]. apply attributes_with_names.
  apply in_map_iff. exists (name, v). split; [done|].
  apply list_elem_of_In, list_elem_of_lookup. eauto.
Qed.

Lemma process_attributes_names (attrs attrs' : list (string * string)) :
  process_attributes valid_attribute_name results attrs = Ok attrs' ->
  map fst attrs' = map fst attrs.
Proof.
  unfold process_attributes. generalize (seq 0 (length attrs)) as ixs.
  intros ixs. revert attrs. induction ixs as [|i ixs IH]; intros attrs.
  - by intros [= <-].
  - cbn [process_attributes_at].
    destruct (process_attribute valid_attribute_name results attrs i)
      as [a1| |] eqn:E; [|done..].
    rewrite bind_Ok. intros H. rewrite (IH _ H).
    by apply process_attribute_names with i.
Qed.

(** The loop throws or returns: it does not run on. *)
Lemma process_attributes_at_ends (ixs : list nat) (attrs : list (string * string)) :
  process_attributes_at valid_attribute_name results ixs attrs <> OutOfFuel.
Proof.
  revert attrs. induction ixs as [|i ixs IH]; intros attrs; [done|].
  cbn [process_attributes_at].
  assert (H : process_attribute valid_attribute_name results attrs i <> OutOfFuel).
  { unfold process_attribute, setAttribute.
    destruct (attrs !! i) as [[name v]|]; [|done].
    destruct (first_marker v) as [partId|]; [|done].
    unfold replaceWithExpressionResult_.
    destruct (ToString_cases (result_of results partId)) as [-> | ->]; [|done].
    rewrite bind_Ok. by destruct (valid_attribute_name name). }
  destruct (process_attribute valid_attribute_name results attrs i) as [a1| |]; [|done..].
  rewrite bind_Ok. apply IH.
Qed.

Lemma process_attributes_from (done todo : list (string * string)) :
  NoDup (map fst (done ++ todo)) ->
  process_attributes_at valid_attribute_name results (seq (length done) (length todo))
                        (map (attribute_after results) done ++ todo)
  = match attributes_error valid_attribute_name results todo with
    | Some e => Throw e
    | None => Ok (map (attribute_after results) (done ++ todo))
    end.
Proof.
  revert done. induction todo as [|[name v] todo IH]; intros done Hnd.
  - simpl. by rewrite !app_nil_r.
  - cbn [length seq process_attributes_at attributes_error].
    assert (Hstep : process_attribute valid_attribute_name results
                      (map (attribute_after results) done ++ (name, v) :: todo)
                      (length done)
                    = match attribute_error valid_attribute_name results (name, v) with
                      | Some e => Throw e
                      | None =>
                          Ok (map (attribute_after results) (done ++ [(name, v)]) ++ todo)
                      end).
    { unfold process_attribute, setAttribute, attribute_error.
      rewrite lookup_app_r by (rewrite length_map; lia).
      rewrite length_map, Nat.sub_diag. cbn [lookup list_lookup fst snd].
      rewrite map_app, <- app_assoc. cbn [map app]. rewrite attribute_after_pair.
      destruct (first_marker v) as [partId|]; [|done].
      unfold replaceWithExpressionResult_.
      destruct (ToString_cases (result_of results partId)) as [-> | ->]; [|done].
      rewrite bind_Ok. destruct (valid_attribute_name name); [|done].
      rewrite attributes_with_middle; [done|].
      rewrite map_map.
      rewrite (map_ext _ fst) by (intros; apply attribute_after_name).
      rewrite map_app in Hnd. apply NoDup_app in Hnd as (_ & Hnd & _).
      intros Hin. apply (Hnd name); [by apply list_elem_of_In|].
      simpl. left. }
    rewrite Hstep.
    destruct (attribute_error valid_attribute_name results (name, v)) as [e|];
      [done|].
    rewrite bind_Ok.
    replace (S (length done)) with (length (done ++ [(name, v)]))
      by (rewrite length_app; simpl; lia).
    rewrite IH by (by rewrite <- app_assoc).
    by rewrite <- app_assoc.
Qed.

(** With names that are all different, the loop handles every attribute
    on its own: it throws the error of the first attribute that has one,
    and without one it returns every attribute as its own turn leaves
    it. *)
Lemma process_attributes_cases (attrs : list (string * string)) :
  NoDup (map fst attrs) ->
  process_attributes valid_attribute_name results attrs =
  match attributes_error valid_attribute_name results attrs with
  | Some e => Throw e
  | None => Ok (map (attribute_after results) attrs)
  end.
Proof.
  intros H. unfold process_attributes.
  apply (process_attributes_from [] attrs H).
Qed.

Lemma process_attributes_map (attrs attrs' : list (string * string)) :
  NoDup (map fst attrs) ->
  process_attributes valid_attribute_name results attrs = Ok attrs' ->
  attributes_error valid_attribute_name results attrs = None /\
  attrs' = map (attribute_after results) attrs.
Proof.
  intros Hnd. rewrite process_attributes_cases by done.
  destruct (attributes_error valid_attribute_name results attrs); [done|]. by intros [= <-].
Qed.

(** No error in the loop: none at any attribute. *)
Lemma attributes_error_None (attrs : list (string * string)) (a : string * string) :
  attributes_error valid_attribute_name results attrs = None -> In a attrs ->
  attribute_error valid_attribute_name results a = None.
Proof.
  induction attrs as [|b attrs IH]; [done|]. cbn [attributes_error].
  destruct (attribute_error valid_attribute_name results b) eqn:E; [done|].
  intros H [->|Hin]; [done|by apply IH].
Qed.


Lemma getAttribute_map (name v : string) (attrs : list (string * string)) :
  NoDup (map fst attrs) -> In (name, v) attrs ->
  getAttribute name (map (attribute_after results) attrs)
  = Some (snd ((attribute_after results) (name, v))).
Proof.
  induction attrs as [|[n w] attrs IH]; [done|].
  cbn [map fst getAttribute In]. intros Hnd Hin.
  pose proof (attribute_after_name (n, w)) as Hname.
  destruct ((attribute_after results) (n, w)) as [n' w'] eqn:Ea. cbn [fst] in Hname.
  subst n'. apply NoDup_cons in Hnd as [Hn Hnd].
  destruct Hin as [Heq|Hin].
  - simplify_eq. rewrite String.eqb_refl. by rewrite Ea.
  - destruct (String.eqb n name) eqn:E.
    + apply String.eqb_eq in E. subst n. exfalso. apply Hn.
      apply list_elem_of_In, in_map_iff. by exists (name, v).
    + by apply IH.
Qed.

(** Without a marker in any value the loop changes nothing. *)
Lemma process_attributes_marker_free (attrs : list (string * string)) :
  forallb (fun a => negb (has_marker (snd a))) attrs = true ->
  process_attributes valid_attribute_name results attrs = Ok attrs.
Proof.
  intros H. unfold process_attributes.
  generalize (seq 0 (length attrs)) as ixs.
  induction ixs as [|i ixs IH]; [done|]. cbn [process_attributes_at].
  replace (process_attribute valid_attribute_name results attrs i)
    with (Ok attrs : outcome _);
    [by rewrite bind_Ok|].
  unfold process_attribute, setAttribute. destruct (attrs !! i) as [[name v]|] eqn:E; [|done].
  rewrite forallb_forall in H.
  specialize (H (name, v)). simpl in H.
  rewrite (proj1 (has_marker_first_marker v)); [done|].
  apply negb_true_iff, H.
  apply list_elem_of_In, list_elem_of_lookup. eauto.
Qed.

End Attributes.

(** *** Digits *)

Lemma span_digits_all (ds rest : string) :
  forallb is_digit (list_ascii_of_string ds) = true ->
  span_digits (ds +:+ String "$" rest) = (ds, String "$" rest).
Proof.
  induction ds as [|c ds IH]; intros Hd; [reflexivity|].
  rewrite append_cons. cbn [list_ascii_of_string forallb] in Hd.
  apply andb_prop in Hd as [Hc Hd].
  cbn [span_digits]. by rewrite Hc, IH.
Qed.

Lemma pieces_from_short (s : string) (k : nat) :
  String.length s <= k -> pieces_from k s = [].
Proof.
  revert k. induction s as [|c s IH]; intros k Hk; [done|].
  destruct k; simpl in *; [lia|]. apply IH. lia.
Qed.

Lemma length_append (s t : string) :
  String.length (s +:+ t) = String.length s + String.length t.
Proof. induction s as [|c s IH]; [done|]. rewrite append_cons. simpl. by rewrite IH. Qed.

(** A value that is one marker and nothing else is one match. *)
Lemma pieces_whole_marker (ds : string) :
  ds <> "" -> forallb is_digit (list_ascii_of_string ds) = true ->
  pieces ("$$$" +:+ ds +:+ "$$$") = [Marker ds].
Proof.
  intros Hne Hd.
  assert (Hm : match_marker ("$$$" +:+ ds +:+ "$$$") = Some (ds, "")).
  { unfold match_marker.
    change (after_prefix "$$$" ("$$$" +:+ ds +:+ "$$$")) with (Some (ds +:+ "$$$")).
    cbv beta iota. rewrite span_digits_all by done.
    destruct ds; [done|]. reflexivity. }
  change ("$$$" +:+ ds +:+ "$$$") with (String "$" ("$$" +:+ ds +:+ "$$$")) in *.
  rewrite pieces_cons, Hm. f_equal.
  apply pieces_from_short. rewrite !length_append. simpl. lia.
Qed.

Lemma replace_markers_whole_marker (f : string -> string) (ds : string) :
  ds <> "" -> forallb is_digit (list_ascii_of_string ds) = true ->
  replace_markers f ("$$$" +:+ ds +:+ "$$$") = f ds.
Proof.
  intros H1 H2. unfold replace_markers. rewrite pieces_whole_marker by done.
  simpl. apply append_nil_r.
Qed.


(** *** The pattern, along the scan *)

Lemma after_prefix_Some (p s r : string) :
  after_prefix p s = Some r -> s = p +:+ r.
Proof.
  revert s. induction p as [|a p IH]; intros s; cbn [after_prefix].
  - by intros [= ->].
  - destruct s as [|b s]; [done|]. destruct (Ascii.eqb a b) eqn:E; [|done].
    apply Ascii.eqb_eq in E as ->. intros H. rewrite append_cons. f_equal. by apply IH.
Qed.

Lemma after_prefix_app (p r : string) : after_prefix p (p +:+ r) = Some r.
Proof.
  induction p as [|a p IH]; [done|]. rewrite append_cons. cbn [after_prefix].
  by rewrite Ascii.eqb_refl.
Qed.

Lemma span_digits_eq (s ds r : string) :
  span_digits s = (ds, r) ->
  s = ds +:+ r /\ forallb is_digit (list_ascii_of_string ds) = true.
Proof.
  revert ds r. induction s as [|c s IH]; intros ds r; cbn [span_digits].
  - by intros [= <- <-].
  - destruct (is_digit c) eqn:Hc; [|by intros [= <- <-]].
    destruct (span_digits s) as [ds' r'] eqn:E. intros [= <- <-].
    destruct (IH ds' r' eq_refl) as [-> Hd]. split; [done|].
    cbn [list_ascii_of_string forallb]. by rewrite Hc, Hd.
Qed.

(** A match at the start of a text: what the text is made of. *)
Lemma match_marker_Some (s ds rest : string) :
  match_marker s = Some (ds, rest) ->
  s = "$$$" +:+ ds +:+ "$$$" +:+ rest /\ ds <> "" /\
  forallb is_digit (list_ascii_of_string ds) = true.
Proof.
  unfold match_marker.
  destruct (after_prefix "$$$" s) as [s1|] eqn:E1; [|done].
  destruct (span_digits s1) as [ds' s2] eqn:E2.
  destruct ds' as [|d ds']; [done|].
  destruct (after_prefix "$$$" s2) as [r|] eqn:E3; [|done].
  intros [= <- <-].
  apply after_prefix_Some in E1 as ->. apply after_prefix_Some in E3 as ->.
  apply span_digits_eq in E2 as [-> Hd]. done.
Qed.

Lemma match_marker_app (ds rest : string) :
  ds <> "" -> forallb is_digit (list_ascii_of_string ds) = true ->
  match_marker ("$$$" +:+ ds +:+ "$$$" +:+ rest) = Some (ds, rest).
Proof.
  intros Hne Hd. unfold match_marker. rewrite after_prefix_app.
  change ("$$$" +:+ rest) with (String "$" ("$$" +:+ rest)).
  rewrite span_digits_all by done.
  destruct ds; [done|].
  change (String "$" ("$$" +:+ rest)) with ("$$$" +:+ rest).
  by rewrite after_prefix_app.
Qed.

Lemma pieces_from_skip (p rest : string) (k : nat) :
  pieces_from (String.length p + k) (p +:+ rest) = pieces_from k rest.
Proof. induction p as [|a p IH]; [done|]. rewrite append_cons. simpl. apply IH. Qed.

(** The scan of a text that starts with a marker. *)
Lemma pieces_marker_app (ds rest : string) :
  ds <> "" -> forallb is_digit (list_ascii_of_string ds) = true ->
  pieces ("$$$" +:+ ds +:+ "$$$" +:+ rest) = Marker ds :: pieces rest.
Proof.
  intros Hne Hd.
  pose proof (match_marker_app ds rest Hne Hd) as Hm.
  change ("$$$" +:+ ds +:+ "$$$" +:+ rest)
    with (String "$" ("$$" +:+ ds +:+ "$$$" +:+ rest)) in *.
  rewrite pieces_cons, Hm. f_equal.
  rewrite <- !append_assoc.
  replace (5 + String.length ds) with (String.length (("$$" +:+ ds) +:+ "$$$") + 0)
    by (rewrite !length_append; simpl; lia).
  apply pieces_from_skip.
Qed.

Lemma pieces_Lit (a : ascii) (s : string) :
  match_marker (String a s) = None -> pieces (String a s) = Lit a :: pieces s.
Proof. intros H. by rewrite pieces_cons, H. Qed.

Lemma match_marker_not_dollar (a : ascii) (s : string) :
  Ascii.eqb a "$" = false -> match_marker (String a s) = None.
Proof.
  intros H. unfold match_marker. cbn [after_prefix].
  by rewrite Ascii.eqb_sym, H.
Qed.

(** Induction along the scan: the empty text, a character no match starts
    at, a match. *)
Lemma pieces_induction (P : string -> Prop) :
  P "" ->
  (forall a s, match_marker (String a s) = None -> P s -> P (String a s)) ->
  (forall ds rest, ds <> "" -> forallb is_digit (list_ascii_of_string ds) = true ->
                   P rest -> P ("$$$" +:+ ds +:+ "$$$" +:+ rest)) ->
  forall s, P s.
Proof.
  intros Hnil Hlit Hmark s.
  remember (String.length s) as n eqn:Hn. revert s Hn.
  induction n as [n IH] using lt_wf_ind. intros s Hn.
  destruct s as [|a s]; [done|].
  destruct (match_marker (String a s)) as [[ds rest]|] eqn:Hm.
  - destruct (match_marker_Some _ _ _ Hm) as (Hs & Hne & Hd).
    rewrite Hs. apply Hmark; [done..|].
    apply (IH (String.length rest)); [|done].
    rewrite Hn, Hs, !length_append. simpl. lia.
  - apply Hlit; [done|]. apply (IH (String.length s)); [|done].
    rewrite Hn. simpl. lia.
Qed.

Lemma pieces_lit_app (l x : string) :
  occurs "$" l = false ->
  pieces (l +:+ x) = map Lit (list_ascii_of_string l) ++ pieces x.
Proof.
  induction l as [|a l IH]; [done|]. cbn [occurs].
  intros [Ha Hl]%orb_false_elim. rewrite append_cons.
  rewrite pieces_Lit by (by apply match_marker_not_dollar).
  cbn [list_ascii_of_string map app]. by rewrite IH.
Qed.


(** *** The digits of an index *)

Lemma Number_of_digits_from (ds : string) :
  Number_of_digits ds = digits_value_from 0 ds.
Proof. reflexivity. Qed.

Lemma digits_value_string_of_uint (d : Decimal.uint) (acc : N) :
  digits_value_from acc (NilEmpty.string_of_uint d)
  = (Unsigned.of_lu (Decimal.rev d) + acc * 10 ^ Unsigned.usize d)%N.
Proof.
  revert acc. induction d; intros acc;
    [simpl; lia|..];
    cbn [NilEmpty.string_of_uint digits_value_from Unsigned.usize];
    unfold Decimal.rev; cbn [Decimal.revapp];
    rewrite Unsigned.of_lu_revapp, IHd, N.pow_succ_r';
    cbn [Unsigned.of_lu];
    match goal with
    | |- context [(N_of_ascii ?c - 48)%N] =>
        let v := eval vm_compute in (N_of_ascii c - 48)%N in
        change (N_of_ascii c - 48)%N with v
    end;
    generalize (10 ^ Unsigned.usize d)%N; intros; lia.
Qed.

Lemma string_of_uint_digits (d : Decimal.uint) :
  forallb is_digit (list_ascii_of_string (NilEmpty.string_of_uint d)) = true.
Proof. induction d; [done|..]; cbn [NilEmpty.string_of_uint list_ascii_of_string forallb]; by rewrite IHd. Qed.

(** The digits of an index: not empty, digits only, and read back as the
    index. *)
Lemma index_digits (i : N) :
  let ds := NilZero.string_of_uint (N.to_uint i) in
  ds <> "" /\ forallb is_digit (list_ascii_of_string ds) = true /\
  Number_of_digits ds = i.
Proof.
  assert (Hnil : N.to_uint i <> Decimal.Nil).
  { destruct i; [done|]. apply Unsigned.to_uint_nonnil. }
  assert (Hs : NilZero.string_of_uint (N.to_uint i) = NilEmpty.string_of_uint (N.to_uint i)).
  { unfold NilZero.string_of_uint. by destruct (N.to_uint i). }
  cbv zeta. rewrite Hs. split; [|split].
  - destruct (N.to_uint i); done.
  - apply string_of_uint_digits.
  - rewrite Number_of_digits_from, digits_value_string_of_uint.
    rewrite N.mul_0_l, N.add_0_r, <- Unsigned.of_uint_alt.
    apply DecimalN.Unsigned.of_to.
Qed.

Lemma marker_text_pieces (i : N) (rest : string) :
  pieces (marker_text i +:+ rest)
  = Marker (NilZero.string_of_uint (N.to_uint i)) :: pieces rest.
Proof.
  destruct (index_digits i) as (Hne & Hd & _).
  unfold marker_text. rewrite !append_assoc. by apply pieces_marker_app.
Qed.

(** *** The walk *)

Lemma processNode_unfold (innerHTML : node -> string)
    (parseFragment : node -> string -> list node)
    (valid_attribute_name : string -> bool) (results : list value) (n : node) :
  processNode_ innerHTML parseFragment valid_attribute_name results n =
  (n1 ← process_element valid_attribute_name results n;
   n2 ← process_markup innerHTML parseFragment results n1;
   process_text results n2).
Proof. reflexivity. Qed.

Lemma replace_markers_checked_no_marker (f : string -> outcome string) (s : string) :
  has_marker s = false -> replace_markers_checked f s = Ok s.
Proof.
  intros H. unfold replace_markers_checked.
  rewrite (replace_pieces_checked_ok f (fun _ => "")).
  - f_equal. by apply (replace_markers_no_marker (fun _ => "")).
  - intros ds Hds. exfalso. unfold has_marker in H.
    apply not_true_iff_false in H. apply H, existsb_exists.
    by exists (Marker ds).
Qed.

Section Walk.

Variable parseFromString : string -> node.
Variable innerHTML : node -> string.
Variable parseFragment : node -> string -> list node.
Variable valid_attribute_name : string -> bool.
Variable results : list value.

#[local] Abbreviation processNode_ :=
  (processNode_ innerHTML parseFragment valid_attribute_name results).
#[local] Abbreviation walk :=
  (walk innerHTML parseFragment valid_attribute_name results).

Lemma walk_S (fuel : nat) (n : node) :
  walk (S fuel) n =
  (n' ← processNode_ n;
   match n' with
   | Element t attrs kids =>
       kids' ← mapM (walk fuel) kids; Ok (Element t attrs kids')
   | _ => Ok n'
   end).
Proof. reflexivity. Qed.

(** More fuel does not change a walk that ended. *)
Lemma walk_more_fuel (fuel : nat) (n : node) (r : outcome node) :
  walk fuel n = r -> r <> OutOfFuel -> walk (S fuel) n = r.
Proof.
  revert n r. induction fuel as [|fuel IH]; intros n r Hr Hne.
  - simpl in Hr. congruence.
  - rewrite (walk_S (S fuel)). rewrite walk_S in Hr.
    destruct (processNode_ n) as [[t a kids|v|d]|e|]; bind_step; try done.
    destruct (mapM (walk fuel) kids) as [k|e|] eqn:Ek; bind_step.
    + rewrite (mapM_more (walk fuel) (walk (S fuel)) kids (Ok k)); try done.
      intros x o _. apply IH.
    + rewrite (mapM_more (walk fuel) (walk (S fuel)) kids (Throw e)); try done.
      intros x o _. apply IH.
    + congruence.
Qed.

Lemma walk_add_fuel (fuel k : nat) (n : node) (r : outcome node) :
  walk fuel n = r -> r <> OutOfFuel -> walk (k + fuel) n = r.
Proof.
  intros Hr Hne. induction k as [|k IH]; [done|].
  simpl "+". by apply walk_more_fuel.
Qed.

Lemma process_text_element (t : string) (a : list (string * string)) (k : list node) :
  process_text results (Element t a k) = Ok (Element t a k).
Proof. reflexivity. Qed.

Lemma process_text_Text (v : string) :
  process_text results (Text v) =
  (v' ← replace_markers_checked (replaceWithExpressionResult_ results) v;
   Ok (Text v')).
Proof.
  simpl. destruct (has_marker v) eqn:E; [done|].
  by rewrite replace_markers_checked_no_marker.
Qed.

Lemma processNode_Text (v : string) :
  processNode_ (Text v) =
  (v' ← replace_markers_checked (replaceWithExpressionResult_ results) v;
   Ok (Text v')).
Proof.
  rewrite processNode_unfold. cbn [process_element]. rewrite bind_Ok.
  change (process_markup innerHTML parseFragment results (Text v)) with (Ok (Text v)).
  rewrite bind_Ok. apply process_text_Text.
Qed.

Lemma processNode_Comment (d : string) : processNode_ (Comment d) = Ok (Comment d).
Proof. reflexivity. Qed.

(** A throw of the attribute loop is a throw of [processNode_]. *)
Lemma processNode_attributes_throw (t : string) (attrs : list (string * string))
    (kids : list node) (e : error) :
  process_attributes valid_attribute_name results attrs = Throw e ->
  processNode_ (Element t attrs kids) = Throw e.
Proof.
  intros H. rewrite processNode_unfold. cbn [process_element]. by rewrite H.
Qed.

Lemma processNode_not_leaf (t : string) (attrs : list (string * string))
    (kids : list node) :
  isLeafElementNode_ (Element t attrs kids) = false ->
  processNode_ (Element t attrs kids) =
  (attrs' ← process_attributes valid_attribute_name results attrs;
   Ok (Element t attrs' kids)).
Proof.
  intros H. rewrite processNode_unfold. cbn [process_element].
  destruct (process_attributes valid_attribute_name results attrs) as [attrs'| |];
    bind_step; [|done..].
  unfold process_markup.
  replace (isLeafElementNode_ (Element t attrs' kids)) with false; done.
Qed.

(** [processNode_] on a leaf element with a marker in its inner markup;
    the markup is read after the attribute loop. *)
Lemma processNode_leaf (t : string) (attrs attrs' : list (string * string))
    (v : string) :
  process_attributes valid_attribute_name results attrs = Ok attrs' ->
  let markup := innerHTML (Element t attrs' [Text v]) in
  has_marker markup = true ->
  processNode_ (Element t attrs [Text v]) =
  (html ← replace_markers_checked (trusted_result results) markup;
   Ok (Element t attrs' (parseFragment (Element t attrs' [Text v]) html))).
Proof.
  intros Ha markup Hm. rewrite processNode_unfold.
  cbn [process_element]. rewrite Ha, !bind_Ok.
  unfold process_markup. cbn [isLeafElementNode_]. fold markup. rewrite Hm.
  destruct (replace_markers_checked _ _) as [html| |]; done.
Qed.

Lemma processNode_leaf_untrusted (t : string) (attrs attrs' : list (string * string))
    (v : string) (i : N) :
  process_attributes valid_attribute_name results attrs = Ok attrs' ->
  In i (marker_ids (innerHTML (Element t attrs' [Text v]))) ->
  instanceof_TrustedHTML (element_at results i) = false ->
  processNode_ (Element t attrs [Text v]) = Throw UntrustedMarkupError.
Proof.
  intros Ha Hin Hu.
  rewrite (processNode_leaf t attrs attrs' v Ha)
    by (by apply has_marker_marker_ids with i).
  by rewrite (replace_markers_checked_untrusted results _ i).
Qed.

End Walk.

Lemma join_from_no_results (i : N) (parts : list string) :
  join_from i parts [] = concat_strings parts.
Proof.
  revert i. induction parts as [|p parts IH]; intros i; [done|].
  simpl. by rewrite IH.
Qed.

(** *** Texts with markers in given places *)


(** The replacement in a text that starts with a stretch without a dollar
    sign and the marker of an index. *)
Lemma replace_markers_checked_app (f : string -> outcome string)
    (l rest : string) (i : N) :
  occurs "$" l = false ->
  replace_markers_checked f (l +:+ marker_text i +:+ rest) =
  (r ← f (NilZero.string_of_uint (N.to_uint i));
   acc ← replace_markers_checked f rest;
   Ok (l +:+ r +:+ acc)).
Proof.
  intros H. unfold replace_markers_checked.
  rewrite pieces_lit_app, marker_text_pieces by done. clear H.
  induction l as [|c l IH].
  - cbn [list_ascii_of_string map app replace_pieces_checked].
    destruct (f _) as [r| |]; bind_step; [|done..].
    by destruct (replace_pieces_checked f (pieces rest)).
  - cbn [list_ascii_of_string map app replace_pieces_checked]. rewrite IH.
    destruct (f _) as [r| |]; bind_step; [|done..].
    destruct (replace_pieces_checked f (pieces rest)); bind_step; done.
Qed.

Lemma result_of_index (results : list value) (i : N) :
  result_of results (NilZero.string_of_uint (N.to_uint i)) = element_at results i.
Proof. unfold result_of. by destruct (index_digits i) as (_ & _ & ->). Qed.

Lemma replaceWithExpressionResult_index (results : list value) (i : N) :
  replaceWithExpressionResult_ results (NilZero.string_of_uint (N.to_uint i))
  = ToString (element_at results i).
Proof. unfold replaceWithExpressionResult_. by rewrite result_of_index. Qed.




Section NodeSteps.

Variable parseFromString : string -> node.
Variable innerHTML : node -> string.
Variable parseFragment : node -> string -> list node.
Variable valid_attribute_name : string -> bool.
Variable results : list value.

#[local] Abbreviation processNode_ :=
  (processNode_ innerHTML parseFragment valid_attribute_name results).
#[local] Abbreviation walk :=
  (walk innerHTML parseFragment valid_attribute_name results).
#[local] Abbreviation process_attributes :=
  (process_attributes valid_attribute_name results).



(** The earlier revision replaces the markers inside the value; for a
    value that is one marker the result is the same. *)
Lemma Legacy_attribute_raw_substitution
    (attrs attrs' : list (string * string)) (name ds : string) :
  Legacy.process_attributes results attrs = Ok attrs' ->
  In (name, "$$$" +:+ ds +:+ "$$$") attrs ->
  ds <> "" ->
  forallb is_digit (list_ascii_of_string ds) = true ->
  In (name, text_of (element_at results (Number_of_digits ds))) attrs'.
Proof.
  intros Ha Hin Hne Hds.
  destruct (mapM_ok_In _ _ _ _ Ha Hin) as [[n w] [Hb Hin']].
  replace (name, text_of (element_at results (Number_of_digits ds))) with (n, w);
    [done|].
  revert Hb. unfold Legacy.process_attribute. cbn [fst snd].
  replace (has_marker ("$$$" +:+ ds +:+ "$$$")) with true
    by (unfold has_marker; by rewrite pieces_whole_marker).
  unfold replace_markers_checked. rewrite pieces_whole_marker by done.
  cbn [replace_pieces_checked]. unfold replaceWithExpressionResult_, result_of.
  destruct (ToString_cases (element_at results (Number_of_digits ds))) as [-> | ->];
    bind_step; [|done].
  intros [= <- <-]. by rewrite append_nil_r.
Qed.

(** The earlier revision checks a leaf element in the same way. *)
Lemma Legacy_leaf_markup_requires_trust (t : string)
    (attrs attrs' : list (string * string)) (v : string) (i : N) :
  Legacy.process_attributes results attrs = Ok attrs' ->
  In i (marker_ids (innerHTML (Element t attrs' [Text v]))) ->
  instanceof_TrustedHTML (element_at results i) = false ->
  Legacy.processNode_ innerHTML parseFragment results (Element t attrs [Text v])
  = Throw UntrustedMarkupError.
Proof.
  intros Ha Hin Hu. unfold Legacy.processNode_. cbn [Legacy.process_element].
  rewrite Ha, !bind_Ok.
  unfold process_markup. cbn [isLeafElementNode_].
  rewrite (has_marker_marker_ids _ i Hin).
  by rewrite (replace_markers_checked_untrusted results _ i).
Qed.


End NodeSteps.

Section NoResults.

Variable parseFromString : string -> node.
Variable innerHTML : node -> string.
Variable parseFragment : node -> string -> list node.
Variable valid_attribute_name : string -> bool.
Variable results : list value.

#[local] Abbreviation processNode_ :=
  (processNode_ innerHTML parseFragment valid_attribute_name results).
#[local] Abbreviation walk :=
  (walk innerHTML parseFragment valid_attribute_name results).

(** The walk of a tree without markers returns the tree. *)
Lemma walk_marker_free (fuel : nat) (n : node) :
  marker_free innerHTML n = true -> depth n <= fuel -> walk fuel n = Ok n.
Proof.
  revert n. induction fuel as [|fuel IH]; intros n Hmf Hd.
  - destruct n; simpl in Hd; lia.
  - rewrite walk_S. destruct n as [t attrs kids|v|d].
    + cbn [marker_free] in Hmf.
      apply andb_prop in Hmf as [Hmf Hkids]. apply andb_prop in Hmf as [Ha Hl].
      assert (Hp : processNode_ (Element t attrs kids) = Ok (Element t attrs kids)).
      { rewrite processNode_unfold. cbn [process_element].
        rewrite process_attributes_marker_free, !bind_Ok by done.
        unfold process_markup.
        apply negb_true_iff in Hl.
        destruct (isLeafElementNode_ (Element t attrs kids)); [|done].
        simpl in Hl. by rewrite Hl. }
      rewrite Hp. bind_step.
      rewrite mapM_ok_same; [done|].
      intros k Hk. apply IH.
      * rewrite forallb_forall in Hkids. by apply Hkids.
      * simpl in Hd. apply Nat.succ_le_mono in Hd.
        clear -Hk Hd. induction kids as [|k' kids IHk]; [done|].
        simpl in Hd. destruct Hk as [->|Hk]; [lia|]. apply IHk; (assumption || lia).
    + rewrite processNode_Text. simpl in Hmf. apply negb_true_iff in Hmf.
      by rewrite replace_markers_checked_no_marker.
    + done.
Qed.

End NoResults.

Section Reserialized.

Variable parseFromString : string -> node.
Variable innerHTML : node -> string.
Variable parseFragment : node -> string -> list node.
Variable valid_attribute_name : string -> bool.

(** C9, as the code has it.  With no results, when the tree the joined
    segments parse into holds no marker and [fuel] covers its depth, the
    call returns a wrapper whose text is the serialization of the body of
    that tree; it is the concatenation of the segments whenever the host
    parses and serializes that markup unchanged. *)
Theorem C9_no_results_reserialized (fuel : nat) (strings : list string)
    (body : node) :
  let doc := parseFromString ("<body>" +:+ concat_strings strings +:+ "</body>") in
  marker_free innerHTML doc = true ->
  depth doc <= fuel ->
  body_of doc = Some body ->
  exists t,
    fromTemplateLiteral parseFromString innerHTML parseFragment
      valid_attribute_name fuel strings [] = Ok t /\
    toString t = innerHTML body /\
    (innerHTML body = concat_strings strings ->
     toString t = concat_strings strings).
Proof.
  intros doc Hmf Hd Hb. exists (new_TrustedHTML (innerHTML body)).
  split; [|split; [done|by intros ->]].
  unfold fromTemplateLiteral, new_TrustedHTML_template, interpolate_.
  rewrite join_from_no_results. fold doc.
  rewrite walk_marker_free by done. bind_step. by rewrite Hb.
Qed.

End Reserialized.

Section Propagation.

Variable parseFromString : string -> node.
Variable innerHTML : node -> string.
Variable parseFragment : node -> string -> list node.
Variable valid_attribute_name : string -> bool.
Variable results : list value.

Hypothesis innerHTML_attributes :
  forall t a a' k, innerHTML (Element t a k) = innerHTML (Element t a' k).

#[local] Abbreviation processNode_ :=
  (processNode_ innerHTML parseFragment valid_attribute_name results).
#[local] Abbreviation walk :=
  (walk innerHTML parseFragment valid_attribute_name results).

Lemma process_attributes_at_throws (ixs : list nat) (attrs : list (string * string))
    (e : error) :
  process_attributes_at valid_attribute_name results ixs attrs = Throw e ->
  engine_error e = true.
Proof.
  revert attrs. induction ixs as [|i ixs IH]; intros attrs; [done|].
  cbn [process_attributes_at].
  destruct (process_attribute valid_attribute_name results attrs i)
    as [a1|e1|] eqn:E; bind_step; [apply IH| |done].
  intros [= <-]. revert E. unfold process_attribute, setAttribute.
  destruct (attrs !! i) as [[name v]|]; [|done].
  destruct (first_marker v) as [partId|]; [|done].
  unfold replaceWithExpressionResult_.
  destruct (ToString_cases (result_of results partId)) as [-> | ->]; bind_step.
  - destruct (valid_attribute_name name); [done|]. by intros [= <-].
  - by intros [= <-].
Qed.

Lemma replace_text_throws (ps : list piece) (e : error) :
  replace_pieces_checked (replaceWithExpressionResult_ results) ps = Throw e ->
  e = ConversionError.
Proof.
  induction ps as [|[c|ds] ps IH]; cbn [replace_pieces_checked]; [done| |].
  - destruct (replace_pieces_checked _ ps); bind_step; [done| |done].
    intros [= <-]. by apply IH.
  - change (replaceWithExpressionResult_ results ds)
      with (ToString (result_of results ds)).
    destruct (ToString_cases (result_of results ds)) as [-> | ->]; bind_step.
    + destruct (replace_pieces_checked _ ps); bind_step; [done| |done].
      intros [= <-]. by apply IH.
    + by intros [= <-].
Qed.

(** The errors of [processNode_] are the three of the engine. *)
Lemma processNode_throws (n : node) (e : error) :
  processNode_ n = Throw e -> engine_error e = true.
Proof.
  rewrite processNode_unfold.
  destruct (process_element valid_attribute_name results n) as [n1|e1|] eqn:E1;
    bind_step; [| |done].
  - unfold process_markup.
    assert (Ht : forall m, process_text results m = Throw e -> engine_error e = true).
    { intros [t a k|v|d]; cbn [process_text]; [done| |done].
      destruct (has_marker v); [|done].
      destruct (replace_markers_checked _ v) as [w|e'|] eqn:Ew; bind_step; [done| |done].
      intros [= <-]. by rewrite (replace_text_throws _ _ Ew). }
    destruct (isLeafElementNode_ n1); [destruct (has_marker (innerHTML n1))|];
      bind_step; [|apply Ht..].
    unfold replace_markers_checked.
    destruct (replace_pieces_checked_cases results (pieces (innerHTML n1)))
      as [-> | ->]; bind_step; [|by intros [= <-]].
    destruct n1; bind_step; apply Ht.
  - intros [= <-]. destruct n as [t attrs kids|v|d]; [|done..].
    cbn [process_element] in E1.
    destruct (process_attributes valid_attribute_name results attrs)
      as [a1|e'|] eqn:Ea; bind_step; [done| |done].
    injection E1 as <-. by apply (process_attributes_at_throws _ _ _ Ea).
Qed.

Lemma walk_throws (fuel : nat) (n : node) (e : error) :
  walk fuel n = Throw e -> engine_error e = true.
Proof.
  revert n e. induction fuel as [|fuel IH]; intros n e; [done|].
  rewrite walk_S.
  destruct (processNode_ n) as [[t a kids|v|d]|e'|] eqn:Ep; bind_step; try done.
  - assert (Hk : forall r, mapM (walk fuel) kids = Throw r -> engine_error r = true).
    { clear Ep. induction kids as [|k kids IHk]; intros r; [done|].
      rewrite mapM_cons. destruct (walk fuel k) as [k'|e'|] eqn:Ek; bind_step.
      - destruct (mapM (walk fuel) kids) as [ks|e'|]; bind_step; try done.
        intros [= <-]. by apply IHk.
      - intros [= <-]. by apply (IH k).
      - done. }
    destruct (mapM (walk fuel) kids) as [ks|e'|]; bind_step; try done.
    intros [= <-]. by apply Hk.
  - intros [= <-]. by apply (processNode_throws n).
Qed.

(** A walk that meets such a leaf element does not return a tree. *)
Lemma walk_untrusted_leaf (fuel : nat) (n r : node) :
  untrusted_leaf innerHTML results n = true -> walk fuel n <> Ok r.
Proof.
  revert n r. induction fuel as [|fuel IH]; intros n r Hn; [done|].
  destruct n as [t attrs kids|v|d]; [|done..].
  cbn [untrusted_leaf] in Hn. apply orb_prop in Hn as [Hn|Hn].
  - apply andb_prop in Hn as [Hleaf Hex].
    apply existsb_exists in Hex as [i [Hi Hu]]. apply negb_true_iff in Hu.
    destruct kids as [|[| v |] [|]]; try done.
    rewrite walk_S.
    destruct (process_attributes valid_attribute_name results attrs)
      as [attrs'|e|] eqn:Ea.
    + rewrite (processNode_leaf_untrusted innerHTML parseFragment
                 valid_attribute_name results t attrs attrs' v i); [done..| |done].
      by rewrite (innerHTML_attributes t _ attrs).
    + by rewrite (processNode_attributes_throw innerHTML parseFragment
                    valid_attribute_name results t attrs _ e).
    + by destruct (process_attributes_at_ends _ _ _ _ Ea).
  - rewrite walk_S.
    assert (Hleaf : isLeafElementNode_ (Element t attrs kids) = false).
    { by destruct kids as [|[| v |] [|]]. }
    rewrite processNode_not_leaf by done.
    destruct (process_attributes valid_attribute_name results attrs)
      as [attrs'|e|]; bind_step; [|done..].
    destruct (mapM (walk fuel) kids) as [kids'| |] eqn:Ek; bind_step; [|done..].
    exfalso. apply existsb_exists in Hn as [k [Hk Hu]].
    destruct (mapM_ok_In _ _ _ _ Ek Hk) as [k' [Hw _]].
    by apply (IH k k').
Qed.

(** X1. The same for a whole template: when the document parsed from the
    joined markup holds a leaf element with a marker of a result that is
    not a [TrustedHTML], the call never resolves to a value: it throws
    one of the errors of the engine, unless the walk runs on. *)
Lemma fromTemplateLiteral_untrusted_leaf (fuel : nat) (strings : list string) :
  untrusted_leaf innerHTML results
    (parseFromString ("<body>" +:+ join_from 0 strings results +:+ "</body>")) = true ->
  (exists e,
     fromTemplateLiteral parseFromString innerHTML parseFragment
       valid_attribute_name fuel strings results = Throw e /\
     engine_error e = true) \/
  fromTemplateLiteral parseFromString innerHTML parseFragment
    valid_attribute_name fuel strings results = OutOfFuel.
Proof.
  intros H. unfold fromTemplateLiteral, new_TrustedHTML_template, interpolate_.
  destruct (walk fuel _) as [r|e|] eqn:Ew; bind_step.
  - by destruct (walk_untrusted_leaf fuel _ r H).
  - left. exists e. split; [done|]. by apply (walk_throws fuel _ e Ew).
  - by right.
Qed.

End Propagation.

(** *** On the example host *)

Lemma Host_innerHTML_attributes (t : string) (a a' : list (string * string))
    (k : list node) :
  Host.innerHTML (Element t a k) = Host.innerHTML (Element t a' k).
Proof. reflexivity. Qed.

Lemma Host_fromTemplateLiteral_add_fuel (fuel k : nat) (strings : list string)
    (results : list value) (t : TrustedHTML) :
  Host.fromTemplateLiteral fuel strings results = Ok t ->
  Host.fromTemplateLiteral (k + fuel) strings results = Ok t.
Proof.
  unfold Host.fromTemplateLiteral, fromTemplateLiteral, new_TrustedHTML_template,
    interpolate_.
  destruct (walk _ _ _ _ fuel _) as [d|e|] eqn:Ew; bind_step; [|done..].
  intros H. erewrite walk_add_fuel; [|exact Ew|done]. by bind_step.
Qed.

(** C3. The three segments and the two results are joined with a marker
    after each of the first two segments; the document parsed from that
    has one [div] with the marker 0 as its [id] and the marker 1 as its
    text; and with fuel for the four levels of that document (any fuel from
    4 on) the call returns the wrapper whose text is the [div] with
    [id="abc"] around the escaped markup. *)
Theorem C3_template_example (k : nat) :
  let strings := ["<div id=" +:+ String DQUOTE ""; String DQUOTE ">"; ""] in
  let results := [VString "abc"; VTrusted (escape "<b>")] in
  join_from 0 strings results = "<div id=" +:+ quoted "$$$0$$$" +:+ ">$$$1$$$" /\
  Host.parseFromString ("<body>" +:+ join_from 0 strings results +:+ "</body>") =
    Element "html" []
      [Element "head" [] [];
       Element "body" [] [Element "div" [("id", "$$$0$$$")] [Text "$$$1$$$"]]] /\
  processNode_ Host.innerHTML Host.parseFragment Host.valid_attribute_name results
    (Element "div" [("id", "$$$0$$$")] [Text "$$$1$$$"]) =
    Ok (Element "div" [("id", "abc")] [Text "<b>"]) /\
  exists t,
    Host.fromTemplateLiteral (k + 4) strings results = Ok t /\
    toString t = "<div id=" +:+ quoted "abc" +:+ ">&lt;b&gt;</div>".
Proof.
  intros strings results.
  split; [reflexivity|]. split; [reflexivity|]. split; [reflexivity|].
  exists (new_TrustedHTML ("<div id=" +:+ quoted "abc" +:+ ">&lt;b&gt;</div>")).
  split; [|reflexivity].
  apply Host_fromTemplateLiteral_add_fuel. reflexivity.
Qed.

(** Two small templates: a plain string inside a leaf element is
    rejected, the escaped string is accepted. *)
Example template_plain_string_rejected :
  Host.fromTemplateLiteral 4 ["<p>"; "</p>"] [VString "x"]
  = Throw UntrustedMarkupError.
Proof. reflexivity. Qed.

Example template_escaped_string_accepted :
  Host.fromTemplateLiteral 4 ["<p>"; "</p>"] [VTrusted (escape "x")]
  = Ok (new_TrustedHTML "<p>x</p>").
Proof. reflexivity. Qed.

(** A result with markup in it, put into an attribute and into a text
    node between elements: it stays text in both places. *)
Example template_markup_in_attribute_and_text :
  Host.fromTemplateLiteral 4
    ["<a href=" +:+ String DQUOTE ""; String DQUOTE ">x</a> and "; "<i>z</i>"]
    [VString "<script>alert(1)</script>"; VString "<b>"]
  = Ok (new_TrustedHTML
          ("<a href=" +:+ quoted "<script>alert(1)</script>" +:+
           ">x</a> and &lt;b&gt;<i>z</i>")).
Proof. reflexivity. Qed.

(** Why the walk takes fuel: a [TrustedHTML] whose text holds the marker
    of its own index is put back into the tree at every level, and the
    walk of that template never ends. *)
Lemma walk_marker_of_itself (fuel : nat) :
  walk Host.innerHTML Host.parseFragment Host.valid_attribute_name
    [VTrusted (new_TrustedHTML "<b>$$$0$$$</b>")] fuel
    (Element "b" [] [Text "$$$0$$$"]) = OutOfFuel.
Proof.
  induction fuel as [|fuel IH]; [reflexivity|].
  rewrite walk_S.
  change (processNode_ Host.innerHTML Host.parseFragment Host.valid_attribute_name
            [VTrusted (new_TrustedHTML "<b>$$$0$$$</b>")]
            (Element "b" [] [Text "$$$0$$$"]))
    with (Ok (Element "b" [] [Element "b" [] [Text "$$$0$$$"]])).
  rewrite bind_Ok, mapM_cons, IH. reflexivity.
Qed.

Example template_never_resolves (fuel : nat) :
  Host.fromTemplateLiteral fuel ["<b>"; "</b>"]
    [VTrusted (new_TrustedHTML "<b>$$$0$$$</b>")] = OutOfFuel.
Proof.
  unfold Host.fromTemplateLiteral, fromTemplateLiteral, new_TrustedHTML_template,
    interpolate_.
  change (Host.parseFromString _) with
    (Element "html" []
       [Element "head" [] [];
        Element "body" [] [Element "b" [] [Text "$$$0$$$"]]]).
  destruct fuel as [|[|fuel]]; [reflexivity..|].
  rewrite walk_S.
  change (processNode_ Host.innerHTML Host.parseFragment Host.valid_attribute_name
            _ (Element "html" _ _))
    with (Ok (Element "html" []
                [Element "head" [] [];
                 Element "body" [] [Element "b" [] [Text "$$$0$$$"]]])).
  rewrite bind_Ok, !mapM_cons.
  change (walk Host.innerHTML Host.parseFragment Host.valid_attribute_name
            _ (S fuel) (Element "head" [] []))
    with (Ok (Element "head" [] [])).
  rewrite bind_Ok, walk_S.
  change (processNode_ Host.innerHTML Host.parseFragment Host.valid_attribute_name
            _ (Element "body" _ _))
    with (Ok (Element "body" [] [Element "b" [] [Text "$$$0$$$"]])).
  rewrite bind_Ok, mapM_cons, walk_marker_of_itself. reflexivity.
Qed.






(** C9 as stated fails: one segment that opens a paragraph and no
    results give the paragraph with its end tag. *)
Lemma C9_counterexample :
  Host.fromTemplateLiteral 4 ["<p>"] [] = Ok (new_TrustedHTML "<p></p>") /\
  toString (new_TrustedHTML "<p></p>") <> concat_strings ["<p>"].
Proof. split; [reflexivity|discriminate]. Qed.

(** Text is serialized with its ampersand escaped. *)
Example template_ampersand_reserialized :
  Host.fromTemplateLiteral 3 ["a & b"] [] = Ok (new_TrustedHTML "a &amp; b").
Proof. reflexivity. Qed.

(** C9 on the host, for a template that is already in serialized form. *)
Lemma C9_no_results_reserialized_witness :
  exists t,
    Host.fromTemplateLiteral 4 ["<p>a"; "</p><br>"] [] = Ok t /\
    toString t = "<p>a</p><br>".
Proof.
  destruct (C9_no_results_reserialized Host.parseFromString Host.innerHTML
              Host.parseFragment Host.valid_attribute_name 4 ["<p>a"; "</p><br>"]
              (Element "body" [] [Element "p" [] [Text "a"]; Element "br" [] []]))
    as [t [H1 [H2 _]]].
  - reflexivity.
  - vm_compute. lia.
  - reflexivity.
  - exists t. split; [exact H1|]. rewrite H2. reflexivity.
Defined.

(** X1 on the host: a plain string as the content of a paragraph. *)
Lemma fromTemplateLiteral_untrusted_leaf_witness :
  (exists e,
     Host.fromTemplateLiteral 4 ["<p>"; "</p>"] [VString "x"] = Throw e /\
     engine_error e = true) \/
  Host.fromTemplateLiteral 4 ["<p>"; "</p>"] [VString "x"] = OutOfFuel.
Proof.
  apply (fromTemplateLiteral_untrusted_leaf Host.parseFromString Host.innerHTML
           Host.parseFragment Host.valid_attribute_name [VString "x"]
           Host_innerHTML_attributes 4 ["<p>"; "</p>"]).
  reflexivity.
Defined.

(** ** Further properties *)

(** *** [escape] as a function of the text *)

Lemma escape_each_app (a b : string) :
  escape_each (a +:+ b) = escape_each a +:+ escape_each b.
Proof.
  induction a as [|c a IH]; [reflexivity|].
  rewrite append_cons. cbn [escape_each]. by rewrite IH, append_assoc.
Qed.

Lemma toString_escape (s : string) : toString (escape s) = escape_each s.
Proof. rewrite toString_inner. apply escaped_each. Qed.

(** X2. [escape] goes through concatenation: the text of [escape(a + b)]
    is the text of [escape(a)] followed by the text of [escape(b)]. *)
Theorem X2_escape_concat (a b : string) :
  toString (escape (a +:+ b)) = toString (escape a) +:+ toString (escape b).
Proof.
  rewrite !toString_escape. apply escape_each_app.
Qed.

Lemma length_escape_char (c : ascii) : 1 <= String.length (escape_char c).
Proof. special_cases c; simpl; lia. Qed.

Lemma escape_each_plain (s : string) : all_plain s = true -> escape_each s = s.
Proof.
  induction s as [|c s IH]; [done|]. cbn [all_plain escape_each].
  intros [Hc Hs]%andb_prop. apply negb_true_iff in Hc.
  destruct (escape_char_cases c) as [[_ ->]|[Hc' _]]; [|congruence].
  by rewrite append_cons, append_nil_l, IH.
Qed.

Lemma length_escape_each (s : string) :
  String.length s <= String.length (escape_each s).
Proof.
  induction s as [|c s IH]; [done|]. cbn [escape_each].
  rewrite length_append. pose proof (length_escape_char c). simpl. lia.
Qed.

Lemma escape_each_special_longer (s : string) :
  all_plain s = false -> String.length s < String.length (escape_each s).
Proof.
  induction s as [|c s IH]; [done|]. cbn [all_plain escape_each].
  rewrite length_append. intros H. apply andb_false_iff in H as [Hc|Hs].
  - apply negb_false_iff in Hc. pose proof (length_escape_each s).
    assert (2 <= String.length (escape_char c)).
    { revert Hc. special_cases c; simpl; intros; (lia || discriminate). }
    simpl. lia.
  - specialize (IH Hs). pose proof (length_escape_char c). simpl. lia.
Qed.

Lemma escape_char_plain (c : ascii) :
  is_special c = false -> escape_char c = String c "".
Proof. intros H. destruct (escape_char_cases c) as [[_ ->]|[H' _]]; congruence. Qed.

Lemma escape_char_special_head (c : ascii) :
  is_special c = true -> exists t, escape_char c = String "&" t.
Proof.
  special_cases c; intros H; try (eexists; reflexivity). discriminate.
Qed.

Lemma all_plain_app (a b : string) :
  all_plain (a +:+ b) = all_plain a && all_plain b.
Proof.
  induction a as [|c a IH]; [done|]. rewrite append_cons. cbn [all_plain].
  by rewrite IH, andb_assoc.
Qed.

Lemma all_plain_escape_each (s : string) :
  all_plain (escape_each s) = all_plain s.
Proof.
  induction s as [|c s IH]; [done|]. cbn [escape_each all_plain].
  rewrite all_plain_app, IH. f_equal.
  destruct (escape_char_cases c) as [[Hc ->]|[Hc _]].
  - cbn. by rewrite Hc.
  - rewrite Hc. destruct (escape_char_special_head c Hc) as [t ->]. reflexivity.
Qed.

(** X3. [escape] returns the text of its argument exactly when none of the
    six characters it replaces occurs in the argument, and escaping the
    escaped text once more changes nothing in exactly that case; the
    escaped text is never shorter than the argument and it is longer as
    soon as one of the six characters occurs. *)
Theorem X3_escape_fixed_points (s : string) :
  (toString (escape s) = s <-> all_plain s = true) /\
  (toString (escape (toString (escape s))) = toString (escape s)
     <-> all_plain s = true) /\
  String.length s <= String.length (toString (escape s)) /\
  (all_plain s = false -> String.length s < String.length (toString (escape s))).
Proof.
  assert (H : forall x, escape_each x = x <-> all_plain x = true).
  { intros x. split; [|apply escape_each_plain].
    intros Hx. destruct (all_plain x) eqn:E; [done|].
    apply escape_each_special_longer in E. rewrite Hx in E. lia. }
  rewrite !toString_escape.
  split; [apply H|]. split; [by rewrite H, all_plain_escape_each|].
  split; [apply length_escape_each|apply escape_each_special_longer].
Qed.

(** X4. The marker [interpolate_] writes for the result at index [i] is
    matched by the pattern as one marker, and [Number] of its digits is
    [i] again.  Replacing in it does what the conversion of result [i] to
    a string does, return its string form or throw; the replacement with
    the check does the same for a [TrustedHTML] result and throws its own
    error for every other result. *)
Theorem X4_marker_round_trip (i : N) (results : list value) :
  marker_ids (marker_text i) = [i] /\
  has_marker (marker_text i) = true /\
  replace_markers_checked (replaceWithExpressionResult_ results) (marker_text i)
    = ToString (element_at results i) /\
  replace_markers_checked (trusted_result results) (marker_text i)
    = (if instanceof_TrustedHTML (element_at results i)
       then ToString (element_at results i)
       else Throw UntrustedMarkupError).
Proof.
  destruct (index_digits i) as (Hne & Hd & Hi).
  assert (Hp : pieces (marker_text i)
               = [Marker (NilZero.string_of_uint (N.to_uint i))]).
  { rewrite <- (append_nil_r (marker_text i)). by rewrite marker_text_pieces. }
  assert (Hs : forall m : outcome string,
               (r ← m; acc ← Ok ""; Ok (r +:+ acc)) = m).
  { intros [r| |]; bind_step; [|done..]. by rewrite append_nil_r. }
  unfold marker_ids, has_marker, replace_markers_checked.
  rewrite Hp. cbn [omap list_omap existsb is_marker replace_pieces_checked].
  rewrite !Hs. unfold replaceWithExpressionResult_, trusted_result, result_of.
  rewrite Hi. split; [done|]. split; [done|]. split; [done|].
  by destruct (instanceof_TrustedHTML _).
Qed.

Lemma hasOwnProperty_lt {A : Type} (a : list A) (i : N) :
  hasOwnProperty a i = (i <? N.of_nat (length a))%N.
Proof.
  revert i. induction a as [|x a IH]; intros i.
  - simpl. symmetry. apply N.ltb_ge. lia.
  - cbn [hasOwnProperty length]. destruct (N.eqb_spec i 0) as [->|Hi].
    + symmetry. apply N.ltb_lt. lia.
    + rewrite IH. destruct (N.ltb_spec (N.pred i) (N.of_nat (length a)));
        symmetry; [apply N.ltb_lt|apply N.ltb_ge]; lia.
Qed.

Lemma element_at_past_end (a : list value) (i : N) :
  (N.of_nat (length a) <= i)%N -> element_at a i = VUndefined.
Proof.
  revert i. induction a as [|x a IH]; intros i Hi; [done|].
  cbn [element_at]. cbn [length] in Hi.
  destruct (N.eqb_spec i 0) as [->|Hne]; [lia|]. apply IH. lia.
Qed.

Lemma element_at_lookup (a : list value) (i : nat) (v : value) :
  a !! i = Some v -> element_at a (N.of_nat i) = v.
Proof.
  revert i. induction a as [|x a IH]; intros i; [done|].
  destruct i as [|i]; [by intros [= ->]|].
  cbn [element_at]. intros Hi.
  destruct (N.eqb_spec (N.of_nat (S i)) 0) as [H0|_]; [lia|].
  replace (N.pred (N.of_nat (S i))) with (N.of_nat i) by lia. by apply IH.
Qed.

(** X5. The joined markup depends on the results through their number
    only: two lists of results of the same length give the same markup
    for the same segments. *)
Theorem X5_join_independent_of_values (strings : list string)
    (results results' : list value) :
  length results = length results' ->
  join_from 0 strings results = join_from 0 strings results'.
Proof.
  intros Hlen. generalize 0%N as i. induction strings as [|p ps IH]; intros i; [done|].
  cbn [join_from]. by rewrite IH, !hasOwnProperty_lt, Hlen.
Qed.

(** X5 for a plain string and an escaped one. *)
Lemma X5_join_independent_of_values_witness :
  join_from 0 ["<p>"; "</p>"] [VString "x"]
  = join_from 0 ["<p>"; "</p>"] [VTrusted (escape "<b>")].
Proof.
  apply (X5_join_independent_of_values ["<p>"; "</p>"] [VString "x"]
           [VTrusted (escape "<b>")]).
  reflexivity.
Defined.

Lemma marker_ids_app_lit (l x : string) :
  occurs "$" l = false -> marker_ids (l +:+ x) = marker_ids x.
Proof.
  intros H. unfold marker_ids. rewrite pieces_lit_app by done.
  induction (list_ascii_of_string l) as [|c cs IH]; [done|]. exact IH.
Qed.

Lemma marker_ids_marker_text (i : N) (x : string) :
  marker_ids (marker_text i +:+ x) = i :: marker_ids x.
Proof.
  unfold marker_ids. rewrite marker_text_pieces.
  destruct (index_digits i) as (_ & _ & Hi). cbn. by rewrite Hi.
Qed.

Lemma marker_ids_join_from (i : N) (parts : list string) (results : list value) :
  Forall (fun p => occurs "$" p = false) parts ->
  marker_ids (join_from i parts results)
  = List.filter (hasOwnProperty results) (N_seq i (length parts)).
Proof.
  intros H. revert i. induction H as [|p ps Hp _ IH]; intros i; [done|].
  cbn [join_from length N_seq List.filter].
  rewrite marker_ids_app_lit by done.
  destruct (hasOwnProperty results i).
  - by rewrite marker_ids_marker_text, IH.
  - by rewrite append_nil_l, IH.
Qed.

Lemma filter_N_seq_lt (i : N) (n : nat) (len : N) :
  (i + N.of_nat n = N.succ len)%N ->
  List.filter (fun j => (j <? len)%N) (N_seq i n) = N_seq i (n - 1).
Proof.
  revert i. induction n as [|n IH]; intros i H; [done|].
  cbn [N_seq List.filter]. destruct n as [|n].
  - simpl. replace (i <? len)%N with false; [done|]. symmetry. apply N.ltb_ge. lia.
  - replace (i <? len)%N with true by (symmetry; apply N.ltb_lt; lia).
    rewrite IH by lia. simpl. by rewrite Nat.sub_0_r.
Qed.

(** X6. For a template literal (one segment more than results) whose
    segments hold no dollar sign, the markers of the joined markup are the
    indices of the results, each once and in their order. *)
Theorem X6_join_markers (strings : list string) (results : list value) :
  Forall (fun p => occurs "$" p = false) strings ->
  length strings = S (length results) ->
  marker_ids (join_from 0 strings results) = N_seq 0 (length results).
Proof.
  intros Hplain Hlen. rewrite marker_ids_join_from by done.
  rewrite (List.filter_ext _ (fun j => (j <? N.of_nat (length results))%N))
    by (intros j; apply hasOwnProperty_lt).
  rewrite filter_N_seq_lt by lia.
  rewrite Hlen. simpl. by rewrite Nat.sub_0_r.
Qed.

(** X6 for a link with two results. *)
Lemma X6_join_markers_witness :
  marker_ids (join_from 0 ["<a href='"; "'>"; "</a>"] [VString "x"; VNull])
  = [0%N; 1%N].
Proof.
  apply (X6_join_markers ["<a href='"; "'>"; "</a>"] [VString "x"; VNull]).
  - repeat constructor.
  - reflexivity.
Defined.

(** X7. A marker whose number is not an index of the results (a marker
    that was not written by the join but came with the text of a segment
    or of a result) stands for [undefined]: its replacement text is
    undefined, the check for a [TrustedHTML] fails on it, and a leaf
    element with such a marker in its markup throws. *)
Theorem X7_marker_without_result (innerHTML : node -> string)
    (parseFragment : node -> string -> list node)
    (valid_attribute_name : string -> bool) (results : list value)
    (partId : string) :
  (N.of_nat (length results) <= Number_of_digits partId)%N ->
  replaceWithExpressionResult_ results partId = Ok "undefined" /\
  trusted_result results partId = Throw UntrustedMarkupError /\
  (forall t attrs attrs' v,
      process_attributes valid_attribute_name results attrs = Ok attrs' ->
      In (Number_of_digits partId)
         (marker_ids (innerHTML (Element t attrs' [Text v]))) ->
      processNode_ innerHTML parseFragment valid_attribute_name results
        (Element t attrs [Text v])
      = Throw UntrustedMarkupError).
Proof.
  intros H.
  assert (Hu : result_of results partId = VUndefined)
    by (by apply element_at_past_end).
  unfold replaceWithExpressionResult_, trusted_result. rewrite Hu.
  split; [done|]. split; [done|]. intros t attrs attrs' v Ha Hin.
  apply processNode_leaf_untrusted with attrs' (Number_of_digits partId); [done..|].
  unfold result_of in Hu. by rewrite Hu.
Qed.

(** X7 on the host: the marker 7 in the text of a paragraph, with one
    result. *)
Lemma X7_marker_without_result_witness :
  replaceWithExpressionResult_ [VString "x"] "7" = Ok "undefined" /\
  trusted_result [VString "x"] "7" = Throw UntrustedMarkupError /\
  processNode_ Host.innerHTML Host.parseFragment Host.valid_attribute_name
    [VString "x"] (Element "p" [] [Text "$$$7$$$"]) = Throw UntrustedMarkupError.
Proof.
  destruct (X7_marker_without_result Host.innerHTML Host.parseFragment
              Host.valid_attribute_name [VString "x"] "7") as (H1 & H2 & H3).
  - vm_compute. discriminate.
  - split; [exact H1|]. split; [exact H2|].
    apply (H3 "p" [] [] "$$$7$$$" eq_refl). left. reflexivity.
Defined.

(** *** Attribute values around a marker *)

Lemma first_marker_app (pre post : string) (i : N) :
  occurs "$" pre = false ->
  first_marker (pre +:+ marker_text i +:+ post)
  = Some (NilZero.string_of_uint (N.to_uint i)).
Proof.
  intros H. unfold first_marker. rewrite pieces_lit_app, marker_text_pieces by done.
  induction (list_ascii_of_string pre) as [|c cs IH]; [done|]. exact IH.
Qed.

Lemma has_marker_app (pre post : string) (i : N) :
  occurs "$" pre = false -> has_marker (pre +:+ marker_text i +:+ post) = true.
Proof.
  intros H. destruct (has_marker _) eqn:E; [done|].
  apply has_marker_first_marker in E. by rewrite first_marker_app in E.
Qed.

(** X9. An attribute whose value holds more than a marker: [setAttribute]
    is called with the result of the first marker alone, so when the loop
    returns, the text around that marker and every later marker are gone
    from the value. *)
Theorem X9_attribute_first_marker_wins (valid_attribute_name : string -> bool)
    (results : list value) (attrs attrs' : list (string * string))
    (name pre post : string) (i : N) :
  NoDup (map fst attrs) ->
  In (name, pre +:+ marker_text i +:+ post) attrs ->
  occurs "$" pre = false ->
  process_attributes valid_attribute_name results attrs = Ok attrs' ->
  ToString (element_at results i) = Ok (text_of (element_at results i)) /\
  getAttribute name attrs' = Some (text_of (element_at results i)).
Proof.
  intros Hnd Hin Hpre Ha.
  destruct (process_attributes_map _ _ _ _ Hnd Ha) as [Herr ->].
  pose proof (attributes_error_None _ _ _ _ Herr Hin) as He.
  unfold attribute_error in He. cbn [fst snd] in He.
  rewrite first_marker_app, replaceWithExpressionResult_index in He by done.
  split.
  - destruct (ToString_cases (element_at results i)) as [H|H]; [done|].
    by rewrite H in He.
  - rewrite (getAttribute_map results name _ attrs Hnd Hin).
    rewrite attribute_after_pair, first_marker_app by done.
    by rewrite result_of_index.
Qed.

(** X9 for a link target with two markers: only the second result, the
    one of the first marker, is left. *)
Lemma X9_attribute_first_marker_wins_witness :
  ToString (VString "y") = Ok "y" /\
  getAttribute "href" [("id", "i"); ("href", "y")] = Some "y".
Proof.
  apply (X9_attribute_first_marker_wins Host.valid_attribute_name
           [VString "x"; VString "y"]
           [("id", "i"); ("href", "/to/" +:+ marker_text 1 +:+ "/$$$0$$$")]
           [("id", "i"); ("href", "y")]
           "href" "/to/" "/$$$0$$$" 1).
  - apply NoDup_cons. split; [by intros [=]%list_elem_of_singleton|].
    apply NoDup_cons. split; [apply not_elem_of_nil|apply NoDup_nil_2].
  - right. left. reflexivity.
  - reflexivity.
  - reflexivity.
Defined.

(** X10. The earlier revision replaces inside the attribute value: when
    its loop returns, the text before the first marker is still there and
    every marker of the value is replaced by the string form of its
    result. *)
Theorem X10_Legacy_attribute_in_place (results : list value)
    (attrs attrs' : list (string * string)) (name pre post : string) (i : N) :
  In (name, pre +:+ marker_text i +:+ post) attrs ->
  occurs "$" pre = false ->
  Legacy.process_attributes results attrs = Ok attrs' ->
  exists post',
    replace_markers_checked (replaceWithExpressionResult_ results) post = Ok post' /\
    In (name, pre +:+ text_of (element_at results i) +:+ post') attrs'.
Proof.
  intros Hin Hpre Ha.
  destruct (mapM_ok_In _ _ _ _ Ha Hin) as [[n w] [Hb Hin']].
  revert Hb. unfold Legacy.process_attribute. cbn [fst snd].
  rewrite has_marker_app, replace_markers_checked_app by done.
  rewrite replaceWithExpressionResult_index.
  destruct (ToString_cases (element_at results i)) as [-> | ->]; bind_step; [|done].
  destruct (replace_markers_checked _ post) as [post'| |]; bind_step; [|done..].
  intros [= <- <-]. eauto.
Qed.

(** X10 for the same link target. *)
Lemma X10_Legacy_attribute_in_place_witness :
  exists post',
    replace_markers_checked (replaceWithExpressionResult_ [VString "x"; VString "y"])
      "/$$$0$$$" = Ok post' /\
    In ("href", "/to/" +:+ "y" +:+ post') [("id", "i"); ("href", "/to/y/x")].
Proof.
  apply (X10_Legacy_attribute_in_place [VString "x"; VString "y"]
           [("id", "i"); ("href", "/to/" +:+ marker_text 1 +:+ "/$$$0$$$")]
           [("id", "i"); ("href", "/to/y/x")]
           "href" "/to/" "/$$$0$$$" 1).
  - right. left. reflexivity.
  - reflexivity.
  - reflexivity.
Defined.

(** One turn of the earlier loop on a simple value whose name is taken:
    it ends as the turn of the later loop does. *)
Lemma Legacy_process_attribute_simple (valid_attribute_name : string -> bool)
    (results : list value) (a : string * string) :
  has_marker (snd a) = false \/ (exists partId, pieces (snd a) = [Marker partId]) ->
  (has_marker (snd a) = true -> valid_attribute_name (fst a) = true) ->
  Legacy.process_attribute results a =
  match attribute_error valid_attribute_name results a with
  | Some e => Throw e
  | None => Ok (attribute_after results a)
  end.
Proof.
  unfold Legacy.process_attribute, attribute_error, attribute_after.
  intros [H|[ds H]] Hv.
  - rewrite H. by apply has_marker_first_marker in H as ->.
  - assert (Hm : has_marker (snd a) = true) by (unfold has_marker; by rewrite H).
    rewrite Hm, (Hv Hm).
    unfold first_marker, replace_markers_checked. rewrite H.
    cbn [replace_pieces_checked].
    unfold replaceWithExpressionResult_.
    destruct (ToString_cases (result_of results ds)) as [-> | ->]; bind_step; [|done].
    by rewrite append_nil_r.
Qed.

(** X11. The two revisions resolve a node to the same outcome when the
    attributes of the node have distinct names, each value holds no
    marker or is one marker and nothing else, and the names of the
    attributes with a marker are names [setAttribute] takes; on text
    nodes and comments they always agree. *)
Theorem X11_revisions_agree (innerHTML : node -> string)
    (parseFragment : node -> string -> list node)
    (valid_attribute_name : string -> bool) (results : list value) (n : node) :
  simple_attributes n ->
  names_taken valid_attribute_name n ->
  Legacy.processNode_ innerHTML parseFragment results n
  = processNode_ innerHTML parseFragment valid_attribute_name results n.
Proof.
  destruct n as [t attrs kids|v|d]; [|done..]. intros [Hnd Hs] Hv.
  rewrite processNode_unfold. unfold Legacy.processNode_.
  cbn [process_element Legacy.process_element].
  replace (Legacy.process_attributes results attrs)
    with (process_attributes valid_attribute_name results attrs); [done|].
  rewrite process_attributes_cases by done. clear Hnd.
  unfold Legacy.process_attributes. cbn [names_taken] in Hv.
  induction attrs as [|a attrs IH]; [done|].
  apply Forall_cons in Hs as [Ha Hs]. apply Forall_cons in Hv as [Hva Hv].
  rewrite mapM_cons, (Legacy_process_attribute_simple valid_attribute_name) by done.
  cbn [attributes_error map].
  destruct (attribute_error valid_attribute_name results a); bind_step; [done|].
  rewrite <- IH by done.
  by destruct (attributes_error valid_attribute_name results attrs).
Qed.

(** X11 on the host: a link whose target is one marker. *)
Lemma X11_revisions_agree_witness :
  Legacy.processNode_ Host.innerHTML Host.parseFragment [VString "x"]
    (Element "a" [("id", "i"); ("href", "$$$0$$$")] [Text "t"])
  = processNode_ Host.innerHTML Host.parseFragment Host.valid_attribute_name
      [VString "x"] (Element "a" [("id", "i"); ("href", "$$$0$$$")] [Text "t"]).
Proof.
  apply (X11_revisions_agree Host.innerHTML Host.parseFragment
           Host.valid_attribute_name [VString "x"]
           (Element "a" [("id", "i"); ("href", "$$$0$$$")] [Text "t"])).
  - cbn [simple_attributes]. split.
    + apply NoDup_cons. split; [by intros [=]%list_elem_of_singleton|].
      apply NoDup_cons. split; [apply not_elem_of_nil|apply NoDup_nil_2].
    + apply Forall_cons. split; [left; reflexivity|].
      apply Forall_cons. split; [right; exists "0"; reflexivity|apply Forall_nil_2].
  - cbn [names_taken].
    apply Forall_cons. split; [reflexivity|].
    apply Forall_cons. split; [reflexivity|apply Forall_nil_2].
Defined.

(** Where the revisions part: a name the parser reads and [setAttribute]
    does not take.  The earlier revision assigns the value, the later one
    throws. *)
Example revisions_differ_on_a_name :
  Legacy.processNode_ Host.innerHTML Host.parseFragment [VString "v"]
    (Element "a" [("=x", "$$$0$$$")] [])
  = Ok (Element "a" [("=x", "v")] []) /\
  processNode_ Host.innerHTML Host.parseFragment Host.valid_attribute_name
    [VString "v"] (Element "a" [("=x", "$$$0$$$")] [])
  = Throw InvalidCharacterError.
Proof. split; reflexivity. Qed.

(** *** What the walk keeps *)

Section Kept.

Variable innerHTML : node -> string.
Variable parseFragment : node -> string -> list node.
Variable valid_attribute_name : string -> bool.
Variable results : list value.

Lemma processNode_same_kind (n n' : node) :
  processNode_ innerHTML parseFragment valid_attribute_name results n = Ok n' ->
  same_kind n n'.
Proof.
  rewrite processNode_unfold. destruct n as [t attrs kids|v|d].
  - cbn [process_element].
    destruct (process_attributes valid_attribute_name results attrs)
      as [attrs'| |] eqn:Ea; bind_step; [|done..].
    pose proof (process_attributes_names _ _ _ _ Ea) as Hn.
    unfold process_markup.
    destruct (isLeafElementNode_ _); [destruct (has_marker _)|];
      [destruct (replace_markers_checked _ _)|..]; bind_step;
      cbn [process_text]; intros [= <-]; done.
  - cbn [process_element]. rewrite bind_Ok.
    change (process_markup innerHTML parseFragment results (Text v))
      with (Ok (Text v)).
    rewrite bind_Ok, process_text_Text.
    destruct (replace_markers_checked _ v); bind_step; [|done..].
    by intros [= <-].
  - by intros [= <-].
Qed.

(** X12. A walk that returns gives back a node of the kind it started
    from: an element keeps its tag and the names and the order of its
    attributes, a comment its data.  An element that is not a leaf element
    keeps the number of its children as well, and the child at each
    position is resolved to a node of its own kind. *)
Theorem X12_walk_keeps_names (fuel : nat) (n n' : node) :
  walk innerHTML parseFragment valid_attribute_name results fuel n = Ok n' ->
  same_kind n n' /\
  (isLeafElementNode_ n = false ->
   length (children_of n') = length (children_of n) /\
   forall i k, children_of n !! i = Some k ->
               exists k', children_of n' !! i = Some k' /\ same_kind k k').
Proof.
  revert n n'. induction fuel as [|fuel IH]; intros n n'; [done|].
  rewrite walk_S.
  destruct (processNode_ innerHTML parseFragment valid_attribute_name results n)
    as [m| |] eqn:Ep; bind_step; [|done..].
  pose proof (processNode_same_kind n m Ep) as Hk.
  destruct m as [t attrs kids|v|d].
  - destruct (mapM _ kids) as [kids'| |] eqn:Ek; bind_step; [|done..].
    intros [= <-]. split.
    { destruct n; done. }
    intros Hleaf. destruct n as [t0 attrs0 kids0|v0|d0]; [|done..].
    rewrite processNode_not_leaf in Ep by done.
    destruct (process_attributes valid_attribute_name results attrs0);
      bind_step; [|done..].
    injection Ep as <- <- <-.
    destruct (mapM_ok_lookup _ _ _ Ek) as [Hlen Hl].
    split; [done|]. intros i k Hi. cbn [children_of] in *.
    destruct (Hl i k Hi) as [k' [Hw Hk']]. exists k'. split; [done|].
    by apply (IH k k').
  - intros [= <-]. split; [done|]. destruct n; try done.
  - intros [= <-]. split; [done|]. destruct n; try done.
Qed.

End Kept.

(** X12 on the host: a [div] with a text and a [br]. *)
Lemma X12_walk_keeps_names_witness :
  same_kind
    (Element "div" [("id", "$$$0$$$")] [Text "a $$$1$$$"; Element "br" [] []])
    (Element "div" [("id", "x")] [Text "a <b>"; Element "br" [] []]) /\
  (isLeafElementNode_
     (Element "div" [("id", "$$$0$$$")] [Text "a $$$1$$$"; Element "br" [] []]) = false ->
   length (children_of (Element "div" [("id", "x")] [Text "a <b>"; Element "br" [] []]))
   = length (children_of
               (Element "div" [("id", "$$$0$$$")] [Text "a $$$1$$$"; Element "br" [] []])) /\
   forall i k,
     children_of
       (Element "div" [("id", "$$$0$$$")] [Text "a $$$1$$$"; Element "br" [] []]) !! i
     = Some k ->
     exists k',
       children_of (Element "div" [("id", "x")] [Text "a <b>"; Element "br" [] []]) !! i
       = Some k' /\ same_kind k k').
Proof.
  apply (X12_walk_keeps_names Host.innerHTML Host.parseFragment
           Host.valid_attribute_name [VString "x"; VString "<b>"] 3).
  reflexivity.
Defined.

(** *** Registry and gate *)

Section Registry.

Variable Object_prototype :
  string -> option (gmap string function_object -> string -> outcome string).

(** A registration under one key leaves the lookup of the other keys as
    it was. *)
Lemma get_sanitizer_other (f : function_object) (id id' : string) (c : config) :
  id' <> id ->
  get_sanitizer Object_prototype
    {| sanitizers_ := <[id := f]> (sanitizers_ c);
       sanitizers_prototype := sanitizers_prototype c;
       sanitizers_frozen := sanitizers_frozen c;
       allowed := allowed c;
       allowUnsafelyCreate_frozen := allowUnsafelyCreate_frozen c |} id'
  = get_sanitizer Object_prototype c id'.
Proof.
  intros Hne. unfold get_sanitizer. cbn [sanitizers_ sanitizers_prototype].
  by rewrite lookup_insert_ne.
Qed.

(** X14. While the registry is not frozen, [registerSanitizer] under a key
    other than [__proto__] that the prototype does not hold read-only
    returns normally, and [sanitize] with the same id (an omitted id is
    the default id in both) then applies the registered function and
    wraps what it returns.  A sanitizer registered under another id is
    applied as before, an id for which the lookup found nothing is unknown
    as before, and [unsafelyCreate] and the two frozen states are as they
    were. *)
Theorem X14_register_then_sanitize (sanitizer : function_object)
    (optSanitizerId : option string) (c : config) (html s : string) :
  let id := default DEFAULT_SANITIZER_ optSanitizerId in
  let c' := snd (registerSanitizer sanitizer optSanitizerId c) in
  sanitizers_frozen c = false ->
  String.eqb id "__proto__" = false ->
  refused_by_prototype c id = false ->
  fst (registerSanitizer sanitizer optSanitizerId c) = Ok () /\
  sanitize Object_prototype html optSanitizerId c'
    = Ok (new_TrustedHTML (call_ sanitizer html)) /\
  (forall id' g, id' <> id -> sanitizers_ c !! id' = Some g ->
     sanitize Object_prototype html (Some id') c'
     = Ok (new_TrustedHTML (call_ g html))) /\
  (forall id', id' <> id -> get_sanitizer Object_prototype c id' = None ->
     sanitize Object_prototype html (Some id') c'
     = Throw (UnknownSanitizerError id')) /\
  unsafelyCreate s c' = unsafelyCreate s c /\
  allowUnsafelyCreate_frozen c' = allowUnsafelyCreate_frozen c /\
  sanitizers_frozen c' = false.
Proof.
  intros id c' Hf Hp Hr. subst c'. unfold registerSanitizer.
  fold id. rewrite Hp, Hf, Hr. cbn [fst snd].
  split; [done|]. split; [|split; [|split; [|done]]].
  - unfold sanitize, get_sanitizer. fold id. cbn [sanitizers_].
    clearbody id. rewrite lookup_insert_eq. reflexivity.
  - intros id' g Hne Hg. apply sanitize_registered. cbn [sanitizers_].
    clearbody id. by rewrite lookup_insert_ne.
  - intros id' Hne Hg. apply sanitize_not_found.
    clearbody id. rewrite <- Hg. by apply get_sanitizer_other.
Qed.

End Registry.

(** X14 with [escape] registered under the id plain. *)
Lemma X14_register_then_sanitize_witness :
  sanitize Object_prototype_members "<b>" (Some "plain")
    (snd (registerSanitizer
            (arrow_function 1 (fun s => toString (escape s)) (Throw HostTypeError))
            (Some "plain") initial_config))
  = Ok (new_TrustedHTML "&lt;b&gt;").
Proof.
  destruct (X14_register_then_sanitize Object_prototype_members
              (arrow_function 1 (fun s => toString (escape s)) (Throw HostTypeError))
              (Some "plain") initial_config "<b>" "" eq_refl eq_refl eq_refl)
    as (_ & H & _).
  exact H.
Defined.

(** X15. A registration under an id that is taken replaces the earlier
    function: the configuration after both registrations is the one the
    second registration alone gives. *)
Theorem X15_register_last_wins (f g : function_object)
    (optSanitizerId : option string) (c : config) :
  snd (registerSanitizer g optSanitizerId
         (snd (registerSanitizer f optSanitizerId c)))
  = snd (registerSanitizer g optSanitizerId c).
Proof.
  destruct c as [m p sf a af].
  unfold registerSanitizer, refused_by_prototype, is_prototype.
  generalize (default DEFAULT_SANITIZER_ optSanitizerId) as id. intros id.
  cbn [sanitizers_frozen sanitizers_ sanitizers_prototype].
  destruct (String.eqb id "__proto__"), sf, p as [p|], (m !! id) eqn:Em;
    repeat first
      [ progress cbn [fst snd sanitizers_frozen sanitizers_ sanitizers_prototype]
      | rewrite lookup_insert_eq
      | rewrite Em
      | match goal with
        | H : N.eqb _ _ = _ |- _ => rewrite H
        | H : read_only _ _ = _ |- _ => rewrite H
        end
      | match goal with
        | |- context [N.eqb ?x ?y] => destruct (N.eqb x y) eqn:?
        | |- context [read_only ?x ?y] => destruct (read_only x y) eqn:?
        end ];
    rewrite ?insert_insert_eq; reflexivity.
Qed.

(** X16. While the gate is not frozen the [allowUnsafelyCreate] setter
    returns normally and the getter then returns the value that was set;
    [unsafelyCreate] wraps its argument if that value is true and throws
    if it is false.  The registry and its frozen state are as they
    were. *)
Theorem X16_gate_set_then_get (value : bool) (c : config) (s : string) :
  allowUnsafelyCreate_frozen c = false ->
  let c' := snd (set_allowUnsafelyCreate value c) in
  fst (set_allowUnsafelyCreate value c) = Ok () /\
  get_allowUnsafelyCreate c' = value /\
  unsafelyCreate s c'
    = (if value then Ok (new_TrustedHTML s) else Throw GateClosedError) /\
  sanitizers_ c' = sanitizers_ c /\
  sanitizers_frozen c' = sanitizers_frozen c /\
  allowUnsafelyCreate_frozen c' = false.
Proof.
  intros Hf c'. subst c'. unfold set_allowUnsafelyCreate. rewrite Hf. cbn [fst snd].
  unfold get_allowUnsafelyCreate, unsafelyCreate. cbn [allowed].
  rewrite !negb_involutive. by destruct value.
Qed.

(** X16 for closing the gate. *)
Lemma X16_gate_set_then_get_witness :
  unsafelyCreate "<b>" (snd (set_allowUnsafelyCreate false initial_config))
  = Throw GateClosedError.
Proof.
  destruct (X16_gate_set_then_get false initial_config "<b>" eq_refl)
    as (_ & _ & H & _).
  exact H.
Defined.

Lemma registerSanitizer_flags (f : function_object) (id : option string)
    (c : config) :
  sanitizers_frozen (snd (registerSanitizer f id c)) = sanitizers_frozen c /\
  allowUnsafelyCreate_frozen (snd (registerSanitizer f id c))
    = allowUnsafelyCreate_frozen c.
Proof.
  unfold registerSanitizer.
  destruct (String.eqb _ "__proto__"), (sanitizers_frozen c) eqn:E;
    try destruct (is_prototype c f); try destruct (refused_by_prototype c _);
    cbn; by rewrite ?E.
Qed.

Lemma perform_flags (c : config) (k : call) :
  sanitizers_frozen (snd (perform c k)) = sanitizers_frozen c || is_freeze k /\
  allowUnsafelyCreate_frozen (snd (perform c k))
    = allowUnsafelyCreate_frozen c || is_freeze k.
Proof.
  destruct k as [f id|v|]; cbn [perform is_freeze].
  - destruct (registerSanitizer_flags f id c) as [-> ->]. by rewrite !orb_false_r.
  - unfold set_allowUnsafelyCreate. destruct (allowUnsafelyCreate_frozen c) eqn:E; cbn;
      rewrite ?E; by rewrite !orb_false_r.
  - cbn. by rewrite !orb_true_r.
Qed.

Lemma perform_all_flags (c : config) (ks : list call) :
  sanitizers_frozen (perform_all c ks) = sanitizers_frozen c || existsb is_freeze ks /\
  allowUnsafelyCreate_frozen (perform_all c ks)
    = allowUnsafelyCreate_frozen c || existsb is_freeze ks.
Proof.
  revert c. induction ks as [|k ks IH]; intros c.
  - cbn. by rewrite !orb_false_r.
  - change (perform_all c (k :: ks)) with (perform_all (snd (perform c k)) ks).
    destruct (IH (snd (perform c k))) as [-> ->].
    destruct (perform_flags c k) as [-> ->]. cbn [existsb].
    by rewrite !orb_assoc.
Qed.

(** X17. The registry and the gate are frozen together: after any calls
    from the initial configuration both are frozen if [freezeConfiguration]
    was one of the calls, and neither is frozen if it was not. *)
Theorem X17_frozen_together (ks : list call) :
  let c := perform_all initial_config ks in
  sanitizers_frozen c = existsb is_freeze ks /\
  allowUnsafelyCreate_frozen c = existsb is_freeze ks.
Proof. intros c. subst c. by destruct (perform_all_flags initial_config ks) as [-> ->]. Qed.

(** *** [escape] and the markers *)

Lemma marker_char_plain (c : ascii) : marker_char c = true -> is_special c = false.
Proof.
  unfold marker_char, is_special, is_digit. intros H.
  destruct (Ascii.eqb c "&") eqn:E1; [apply Ascii.eqb_eq in E1; subst c; done|].
  destruct (Ascii.eqb c "<") eqn:E2; [apply Ascii.eqb_eq in E2; subst c; done|].
  destruct (Ascii.eqb c ">") eqn:E3; [apply Ascii.eqb_eq in E3; subst c; done|].
  destruct (Ascii.eqb c DQUOTE) eqn:E4; [apply Ascii.eqb_eq in E4; subst c; done|].
  destruct (Ascii.eqb c "'") eqn:E5; [apply Ascii.eqb_eq in E5; subst c; done|].
  destruct (Ascii.eqb c NUL) eqn:E6; [apply Ascii.eqb_eq in E6; subst c; done|].
  done.
Qed.

Lemma escape_char_no_dollar (c : ascii) :
  Ascii.eqb c "$" = false -> occurs "$" (escape_char c) = false.
Proof.
  intros H. destruct (escape_char_cases c) as [[_ ->]|[Hs _]].
  - cbn. by rewrite H.
  - revert Hs. special_cases c; intros Hs; try reflexivity. discriminate.
Qed.

Lemma all_plain_marker_chars (p : string) :
  forallb marker_char (list_ascii_of_string p) = true -> all_plain p = true.
Proof.
  induction p as [|c p IH]; [done|]. cbn [list_ascii_of_string forallb all_plain].
  intros [Hc Hp]%andb_prop. by rewrite (marker_char_plain c Hc), IH.
Qed.

(** An escaped text that starts with marker characters comes from a text
    that starts with them. *)
Lemma escape_each_pull_back (p x r' : string) :
  forallb marker_char (list_ascii_of_string p) = true ->
  escape_each x = p +:+ r' ->
  exists r, x = p +:+ r /\ escape_each r = r'.
Proof.
  revert x. induction p as [|h p IH]; intros x Hp Hx.
  - exists x. done.
  - cbn [list_ascii_of_string forallb] in Hp. apply andb_prop in Hp as [Hh Hp].
    destruct x as [|c x]; [done|]. cbn [escape_each] in Hx.
    destruct (is_special c) eqn:Hc.
    + destruct (escape_char_special_head c Hc) as [t Ht]. rewrite Ht in Hx.
      rewrite !append_cons in Hx. injection Hx as <- _.
      apply marker_char_plain in Hh. done.
    + rewrite escape_char_plain in Hx by done.
      rewrite !append_cons, append_nil_l in Hx. injection Hx as -> Hx.
      destruct (IH x Hp Hx) as [r [-> Hr]]. exists r. by rewrite append_cons.
Qed.

Lemma marker_chars_digits (ds : string) :
  forallb is_digit (list_ascii_of_string ds) = true ->
  forallb marker_char (list_ascii_of_string ds) = true.
Proof.
  induction ds as [|c ds IH]; [done|]. cbn [list_ascii_of_string forallb].
  intros [Hc Hd]%andb_prop. unfold marker_char at 1. by rewrite Hc, orb_true_r, IH.
Qed.

Lemma marker_chars_marker (ds : string) :
  forallb is_digit (list_ascii_of_string ds) = true ->
  forallb marker_char (list_ascii_of_string ("$$$" +:+ ds +:+ "$$$")) = true.
Proof.
  intros Hd. apply marker_chars_digits in Hd.
  change ("$$$" +:+ ds +:+ "$$$") with (String "$" (String "$" (String "$" (ds +:+ "$$$")))).
  cbn [list_ascii_of_string forallb].
  change (marker_char "$") with true. cbn [andb].
  induction ds as [|c ds IH]; [reflexivity|].
  rewrite append_cons. cbn [list_ascii_of_string forallb] in *.
  apply andb_prop in Hd as [Hc Hd]. by rewrite Hc, IH.
Qed.

Lemma escape_each_marker (ds rest : string) :
  forallb is_digit (list_ascii_of_string ds) = true ->
  escape_each ("$$$" +:+ ds +:+ "$$$" +:+ rest)
  = "$$$" +:+ ds +:+ "$$$" +:+ escape_each rest.
Proof.
  intros Hd. rewrite <- !append_assoc. rewrite escape_each_app.
  rewrite (escape_each_plain (("$$$" +:+ ds) +:+ "$$$")); [done|].
  apply all_plain_marker_chars. rewrite append_assoc. by apply marker_chars_marker.
Qed.

Lemma match_marker_escape_None (x : string) :
  match_marker x = None -> match_marker (escape_each x) = None.
Proof.
  intros Hx. destruct (match_marker (escape_each x)) as [[ds r']|] eqn:E; [|done].
  destruct (match_marker_Some _ _ _ E) as (He & Hne & Hd).
  rewrite <- !append_assoc in He.
  apply escape_each_pull_back in He as [r [-> _]].
  - rewrite !append_assoc in Hx. by rewrite match_marker_app in Hx.
  - rewrite append_assoc. by apply marker_chars_marker.
Qed.

(** X18. [escape] makes no marker and breaks none: the escaped text has
    the markers of the argument, in the same order. *)
Theorem X18_escape_keeps_markers (s : string) :
  marker_ids (toString (escape s)) = marker_ids s /\
  has_marker (toString (escape s)) = has_marker s.
Proof.
  rewrite toString_escape.
  assert (H : omap (fun p => match p with Marker ds => Some ds | Lit _ => None end)
                (pieces (escape_each s))
              = omap (fun p => match p with Marker ds => Some ds | Lit _ => None end)
                (pieces s)).
  { induction s as [|a s Hm IH|ds rest Hne Hd IH] using pieces_induction.
    - done.
    - rewrite (pieces_Lit a s Hm). cbn [escape_each omap list_omap].
      destruct (Ascii.eqb a "$") eqn:Ea.
      + apply Ascii.eqb_eq in Ea. subst a.
        change (escape_char "$" +:+ escape_each s) with (escape_each (String "$" s)).
        pose proof (match_marker_escape_None _ Hm) as Hm'.
        change (escape_each (String "$" s)) with (String "$" (escape_each s)) in *.
        by rewrite (pieces_Lit _ _ Hm').
      + rewrite pieces_lit_app by (by apply escape_char_no_dollar).
        rewrite <- IH.
        induction (list_ascii_of_string (escape_char a)) as [|c cs IHc]; [done|].
        exact IHc.
    - rewrite escape_each_marker by done. rewrite !pieces_marker_app by done.
      cbn [omap list_omap]. by rewrite IH. }
  split.
  - unfold marker_ids.
    assert (G : forall ps, omap (fun p => match p with
                                 | Marker ds => Some (Number_of_digits ds)
                                 | Lit _ => None end) ps
              = map Number_of_digits
                  (omap (fun p => match p with Marker ds => Some ds | Lit _ => None end) ps)).
    { induction ps as [|[c|ds] ps IHp]; [done|exact IHp|]. cbn. by rewrite <- IHp. }
    by rewrite !G, H.
  - unfold has_marker.
    assert (G : forall ps, existsb is_marker ps
              = match omap (fun p => match p with Marker ds => Some ds | Lit _ => None end) ps with
                | [] => false
                | _ :: _ => true
                end).
    { induction ps as [|[c|ds] ps IHp]; [done|exact IHp|done]. }
    by rewrite !G, H.
Qed.
